(** * GrowWise voice assistant: the keyword responder of
      [GrowWise/services/voice_service.py]

    The service maps a free-text query to one of ten canned responses.  The
    query is lowercased and stripped, a greeting test short-circuits, and
    otherwise every category of [query_patterns] is scored by the number of
    its keywords that occur in the query; the best-scoring category (first in
    insertion order on a tie) selects the response.

    The development has three parts: a small model of the Python values the
    service uses ([Py]), the service itself ([VoiceAssistantService],
    [process_query], [_is_greeting], [get_help_response]), and the
    properties.  After the service come the code around it (the earlier
    version of the service, the Flask routes, the market prices, the JSON
    file store and the two disease services) and what holds of it. *)

From Stdlib Require Import List NArith ZArith Bool String Ascii Lia.
Import ListNotations.

Local Open Scope string_scope.
Local Open Scope list_scope.
Local Open Scope N_scope.

(** ** Python values *)

Module Py.

(** A Python [str] is a sequence of Unicode code points. *)
Definition str := list N.

(** Literals are written as UTF-8 text and decoded to code points. *)
Fixpoint utf8_decode (bs : list N) : str :=
  match bs with
  | [] => []
  | b0 :: r0 =>
    if b0 <? 128 then b0 :: utf8_decode r0
    else
      match r0 with
      | [] => []
      | b1 :: r1 =>
        if b0 <? 224 then (b0 mod 32 * 64 + b1 mod 64) :: utf8_decode r1
        else
          match r1 with
          | [] => []
          | b2 :: r2 =>
            if b0 <? 240
            then (b0 mod 16 * 4096 + b1 mod 64 * 64 + b2 mod 64)
                   :: utf8_decode r2
            else
              match r2 with
              | [] => []
              | b3 :: r3 =>
                (b0 mod 8 * 262144 + b1 mod 64 * 4096
                 + b2 mod 64 * 64 + b3 mod 64) :: utf8_decode r3
              end
          end
      end
  end.

Definition u (s : string) : str :=
  utf8_decode (map N_of_ascii (list_ascii_of_string s)).

(** [==] on [str]. *)
Fixpoint str_eqb (a b : str) : bool :=
  match a, b with
  | [], [] => true
  | x :: a', y :: b' => (x =? y) && str_eqb a' b'
  | _, _ => false
  end.

(** [s.startswith(p)] and [p in s] (substring containment). *)
Fixpoint startswith (p s : str) : bool :=
  match p, s with
  | [], _ => true
  | _ :: _, [] => false
  | x :: p', y :: s' => (x =? y) && startswith p' s'
  end.

Fixpoint contains (p s : str) : bool :=
  startswith p s
  || match s with
     | [] => false
     | _ :: s' => contains p s'
     end.

(** [str.isspace] on one code point: the whitespace of [str.strip()]. *)
Definition isspace (c : N) : bool :=
  ((9 <=? c) && (c <=? 13)) || ((28 <=? c) && (c <=? 32))
  || (c =? 133) || (c =? 160) || (c =? 5760)
  || ((8192 <=? c) && (c <=? 8202))
  || (c =? 8232) || (c =? 8233) || (c =? 8239) || (c =? 8287)
  || (c =? 12288).

Fixpoint dropwhile (f : N -> bool) (s : str) : str :=
  match s with
  | [] => []
  | c :: s' => if f c then dropwhile f s' else s
  end.

Definition lstrip (s : str) : str := dropwhile isspace s.
Definition rstrip (s : str) : str := rev (dropwhile isspace (rev s)).
(** [s.strip()] *)
Definition strip (s : str) : str := rstrip (lstrip s).

(** [str.lower] on text of the Basic Latin block: [A]-[Z] go to [a]-[z],
    every other code point of the block is kept. *)
Definition lower_cp (c : N) : N :=
  if (65 <=? c) && (c <=? 90) then c + 32 else c.
Definition ascii_lower (s : str) : str := map lower_cp s.
Definition is_ascii (s : str) : bool := forallb (fun c => c <? 128) s.

(** A [dict] with [str] keys keeps its items in insertion order. *)
Definition dict (V : Type) := list (str * V).

Fixpoint get {V} (d : dict V) (k : str) : option V :=
  match d with
  | [] => None
  | (k', v) :: d' => if str_eqb k' k then Some v else get d' k
  end.

(** [d[k] = v]: an existing key keeps its place, a new key goes last. *)
Fixpoint setitem {V} (d : dict V) (k : str) (v : V) : dict V :=
  match d with
  | [] => [(k, v)]
  | (k', v') :: d' =>
    if str_eqb k' k then (k', v) :: d' else (k', v') :: setitem d' k v
  end.

Definition keys {V} (d : dict V) : list str := map fst d.
Definition items {V} (d : dict V) : list (str * V) := d.

(** Exceptions the modelled operations can raise. *)
Inductive exn :=
| KeyError (k : str)
| ValueError
| TypeError.

Inductive result (A : Type) :=
| Ok (a : A)
| Raise (e : exn).
Arguments Ok {A} a.
Arguments Raise {A} e.

Definition bind {A B} (r : result A) (f : A -> result B) : result B :=
  match r with
  | Ok a => f a
  | Raise e => Raise e
  end.

(** [d[k]] *)
Definition getitem {V} (d : dict V) (k : str) : result V :=
  match get d k with
  | Some v => Ok v
  | None => Raise (KeyError k)
  end.

(** [max(xs, key=key)]: the running maximum is replaced only by an item
    whose key is strictly greater, so the first maximal item wins.  The
    keys here are what [dict.get] returns, an [int] or [None]; comparing
    with [None] raises [TypeError], an empty sequence raises
    [ValueError]. *)
Fixpoint max_loop (key : str -> option N) (best : str) (best_key : option N)
         (rest : list str) : result str :=
  match rest with
  | [] => Ok best
  | x :: rest' =>
    match key x, best_key with
    | Some kx, Some kb =>
      if kb <? kx then max_loop key x (Some kx) rest'
      else max_loop key best best_key rest'
    | _, _ => Raise TypeError
    end
  end.

Definition max (xs : list str) (key : str -> option N) : result str :=
  match xs with
  | [] => Raise ValueError
  | x :: rest => max_loop key x (key x) rest
  end.

(** [sum(xs)] over ints. *)
Definition sum (xs : list N) : N := fold_left N.add xs 0.

(** [any(xs)] *)
Definition any (xs : list bool) : bool := existsb (fun b => b) xs.

End Py.

Import Py.

Notation "x <- r ;; k" := (bind r (fun x => k))
  (at level 61, r at next level, right associativity).

(** ** The service *)

Record VoiceAssistantService := {
  query_patterns : dict (list str);
  responses : dict str
}.

(** [VoiceAssistantService.__init__] *)
Definition __init__ : VoiceAssistantService := {|
  query_patterns := [
    (u "weather", map u ["weather"; "temperature"; "rain"; "climate"; "forecast"; "sunny"; "cloudy"; "humidity"]);
    (u "prices", map u ["price"; "cost"; "market"; "sell"; "buy"; "rate"; "expensive"; "cheap"; "rupees"]);
    (u "disease", map u ["disease"; "sick"; "problem"; "leaf"; "plant"; "crop"; "infection"; "pest"; "spots"; "yellow"]);
    (u "fertilizer", map u ["fertilizer"; "nutrient"; "soil"; "compost"; "manure"; "nitrogen"; "phosphorus"; "potassium"]);
    (u "cultivation", map u ["seed"; "planting"; "growing"; "cultivation"; "harvest"; "farming"; "irrigation"; "water"]);
    (u "pest", map u ["pest"; "insect"; "bug"; "caterpillar"; "aphid"; "mite"; "larvae"]);
    (u "soil", map u ["soil"; "ph"; "acidity"; "alkaline"; "drainage"; "clay"; "sand"; "loam"]);
    (u "season", map u ["season"; "monsoon"; "winter"; "summer"; "sowing"; "timing"])
  ];
  responses := [
    (u "weather",
     u "🌤️ To get current weather information, use the Weather tab. Enter your city name or allow location access to get real-time weather data including temperature, humidity, and wind speed.");
    (u "prices",
     u "💰 Check the Market Prices section for current rates of vegetables and fruits. You can filter by category to see specific produce prices in your area.");
    (u "disease",
     u "🔬 For plant disease detection, use the Disease Detection tab. Take a clear photo of the affected plant leaves and upload it for AI-powered analysis and treatment recommendations.");
    (u "fertilizer",
     u "🌱 For fertilizer recommendations: Use nitrogen-rich fertilizers for leafy growth, phosphorus for root development, and potassium for flowering. Consider organic compost and get soil testing for specific nutrient needs.");
    (u "cultivation",
     u "🚜 Cultivation tips: Choose seeds based on your local climate and soil type. Ensure proper spacing, watering schedule, and crop rotation. Consult your local agricultural extension office for region-specific advice.");
    (u "pest",
     u "🐛 For pest management: Use integrated pest management (IPM) approaches. Try neem oil, companion planting, and beneficial insects before chemical pesticides. Regular monitoring is key to early detection.");
    (u "soil",
     u "🏔️ Soil health tips: Test your soil pH (6.0-7.0 is ideal for most crops). Improve drainage with organic matter. Add compost regularly to maintain soil structure and fertility.");
    (u "season",
     u "📅 Seasonal farming: Plan crops according to local seasons. Monsoon is ideal for rice and sugarcane. Winter is good for wheat and vegetables. Summer crops include cotton and pulses.");
    (u "greeting",
     u "👋 Hello! I'm your GrowWise farming assistant. I can help you with weather information, market prices, plant disease detection, and general farming guidance. What would you like to know?");
    (u "default",
     u "🌾 I'm here to help with farming! I can assist with:
• Weather information
• Market prices
• Plant disease detection
• Soil and fertilizer advice
• Pest management
• Cultivation tips

Please ask me something specific about farming!")
  ]
|}.

(** The module-level instance. *)
Definition voice_service : VoiceAssistantService := __init__.

(** [VoiceAssistantService._is_greeting] *)
Definition _is_greeting (query : str) : bool :=
  let greetings := map u [
    "hello"; "hi"; "hey"; "good morning"; "good afternoon";
    "good evening"; "namaste"; "greetings"; "howdy"
  ] in
  any (map (fun greeting => contains greeting query) greetings).

(** [VoiceAssistantService.get_help_response] *)
Definition get_help_response (self : VoiceAssistantService)
  : dict (list str) := [
    (u "features", map u [
       "🌤️ Weather Information - Get current weather for any location";
       "💰 Market Prices - Check latest vegetable and fruit prices";
       "🔬 Disease Detection - Upload plant photos for disease diagnosis";
       "🎤 Voice Assistant - Ask questions about farming";
       "📊 Analytics - View usage statistics and history"]);
    (u "sample_queries", map u [
       "What is the weather like today?";
       "Show me tomato prices";
       "My plant leaves are turning yellow";
       "What fertilizer should I use for corn?";
       "How to manage pests in my crop?";
       "What is the best soil pH for vegetables?"])
  ].

(** The number of [keywords] that occur in [query_lower]:
    [sum(1 for keyword in keywords if keyword in query_lower)]. *)
Definition match_count (keywords : list str) (query_lower : str) : N :=
  sum (map (fun _ => 1)
           (filter (fun keyword => contains keyword query_lower) keywords)).

(** One iteration of the scoring loop of [process_query]. *)
Definition score_step (query_lower : str) (matches : dict N)
           (item : str * list str) : dict N :=
  let '(category, keywords) := item in
  let match_count := match_count keywords query_lower in
  if 0 <? match_count then setitem matches category match_count
  else matches.

(** The [matches] dict after the loop over [query_patterns.items()]. *)
Definition score_loop (self : VoiceAssistantService) (query_lower : str)
  : dict N :=
  fold_left (score_step query_lower) (items self.(query_patterns)) [].

Section Service.

(** [str.lower] of the Python runtime.  Its case tables are the Unicode
    database's; the service relies only on what it does to the query. *)
Variable str_lower : str -> str.

(** [query.lower().strip()] *)
Definition normalize (query : str) : str := strip (str_lower query).

(** [VoiceAssistantService.process_query] *)
Definition process_query (self : VoiceAssistantService) (query : str)
  : result str :=
  let query_lower := normalize query in
  if _is_greeting query_lower then getitem self.(responses) (u "greeting")
  else
    let matches := score_loop self query_lower in
    match matches with
    | _ :: _ =>
      best_category <- max (keys matches) (get matches) ;;
      getitem self.(responses) best_category
    | [] => getitem self.(responses) (u "default")
    end.

(** The category whose response [process_query] returns: the same
    decision procedure, stopping at the key into [responses]. *)
Definition classify (self : VoiceAssistantService) (query : str)
  : result str :=
  let query_lower := normalize query in
  if _is_greeting query_lower then Ok (u "greeting")
  else
    let matches := score_loop self query_lower in
    match matches with
    | _ :: _ => max (keys matches) (get matches)
    | [] => Ok (u "default")
    end.

End Service.

(** ** Specification-level notions *)

(** The fixed closed set of categories. *)
Definition Categories : list str :=
  map u ["weather"; "prices"; "disease"; "fertilizer"; "cultivation";
         "pest"; "soil"; "season"; "greeting"; "default"].

(** The greeting substrings. *)
Definition greeting_substrings : list str :=
  map u ["hello"; "hi"; "hey"; "good morning"; "good afternoon";
         "good evening"; "namaste"; "greetings"; "howdy"].

Definition str_eq_dec : forall a b : str, {a = b} + {a <> b} :=
  list_eq_dec N.eq_dec.

(** The match count in the specification's words: the number of distinct
    trigger strings of a category that occur in the normalized query. *)
Definition distinct_triggers_present (triggers : list str) (query_lower : str)
  : N :=
  N.of_nat
    (List.length
       (nodup str_eq_dec
              (filter (fun t => contains t query_lower) triggers))).

(** The scores the loop of [process_query] leaves in [matches], written as
    one pass: the categories with a positive count, in table order. *)
Definition scores (patterns : dict (list str)) (query_lower : str) : dict N :=
  flat_map
    (fun item : str * list str =>
       if 0 <? match_count (snd item) query_lower
       then [(fst item, match_count (snd item) query_lower)]
       else [])
    patterns.

(** The value [matches.get] gives for a key, with [None] read as no match. *)
Definition score_of (matches : dict N) (k : str) : N :=
  match get matches k with
  | Some v => v
  | None => 0
  end.

(** The classification in the specification's words: a greeting substring
    in the normalized query gives [greeting]; otherwise each category of
    the keyword table is scored by the number of its distinct triggers
    present, a category with the highest count is chosen, the first one in
    table order among equals (the tie-break of the reference), and when no
    category has a nonzero count the result is [default]. *)
Definition spec_classifies (str_lower : str -> str)
           (KeywordTable : dict (list str)) (query category : str) : Prop :=
  let q := normalize str_lower query in
  let count := fun triggers => distinct_triggers_present triggers q in
  if existsb (fun greeting => contains greeting q) greeting_substrings
  then category = u "greeting"
  else
    (category = u "default"
     /\ forall c triggers, In (c, triggers) KeywordTable -> count triggers = 0)
    \/ (exists before triggers after,
           KeywordTable = before ++ (category, triggers) :: after
           /\ 0 < count triggers
           /\ (forall c' triggers',
                  In (c', triggers') before -> count triggers' < count triggers)
           /\ (forall c' triggers',
                  In (c', triggers') after ->
                  count triggers' <= count triggers)).

(** ** The service as objects in a store

    The instance, its two dicts and the [matches] dict of a call are
    objects; attributes and variables hold addresses.  A call allocates,
    reads and writes in the store, which outlives it. *)

Module Store.

Definition addr := nat.

Inductive object :=
| PatternsDict (d : dict (list str))
| ResponsesDict (d : dict str)
| CountsDict (d : dict N)
| Instance (query_patterns responses : addr).

Definition store := list object.

(** A new object gets the next address. *)
Definition alloc (o : object) (h : store) : addr * store :=
  (List.length h, h ++ [o]).

Definition read (a : addr) (h : store) : option object := nth_error h a.

(** An object is updated in place. *)
Fixpoint write (a : addr) (o : object) (h : store) : store :=
  match h, a with
  | [], _ => []
  | _ :: h', O => o :: h'
  | x :: h', S a' => x :: write a' o h'
  end.

(** [VoiceAssistantService.__init__]: the two dict literals are allocated
    and the new instance refers to them. *)
Definition __init__ (h : store) : addr * store :=
  let (patterns_ref, h1) :=
      alloc (PatternsDict __init__.(query_patterns)) h in
  let (responses_ref, h2) :=
      alloc (ResponsesDict __init__.(responses)) h1 in
  alloc (Instance patterns_ref responses_ref) h2.

(** [matches[category] = match_count] *)
Definition setitem_at (matches : addr) (category : str) (match_count : N)
           (h : store) : result unit * store :=
  match read matches h with
  | Some (CountsDict d) =>
    (Ok tt, write matches (CountsDict (setitem d category match_count)) h)
  | _ => (Raise TypeError, h)
  end.

(** [responses[key]] for the dict at [responses_ref]. *)
Definition response_at (responses_ref : addr) (key : str) (h : store)
  : result str :=
  match read responses_ref h with
  | Some (ResponsesDict d) => getitem d key
  | _ => Raise TypeError
  end.

(** The scoring loop of [process_query], writing into the dict at
    [matches]. *)
Fixpoint score_loop (matches : addr) (query_lower : str)
         (items : list (str * list str)) (h : store) : result unit * store :=
  match items with
  | [] => (Ok tt, h)
  | (category, keywords) :: rest =>
    let match_count := match_count keywords query_lower in
    if 0 <? match_count
    then
      match setitem_at matches category match_count h with
      | (Ok _, h') => score_loop matches query_lower rest h'
      | (Raise e, h') => (Raise e, h')
      end
    else score_loop matches query_lower rest h
  end.

(** [VoiceAssistantService.process_query] on the instance at [self]. *)
Definition process_query (str_lower : str -> str) (self : addr)
           (query : str) (h : store) : result str * store :=
  let query_lower := normalize str_lower query in
  match read self h with
  | Some (Instance patterns_ref responses_ref) =>
    if _is_greeting query_lower
    then (response_at responses_ref (u "greeting") h, h)
    else
      let (matches, h1) := alloc (CountsDict []) h in
      match read patterns_ref h1 with
      | Some (PatternsDict patterns) =>
        match score_loop matches query_lower (items patterns) h1 with
        | (Ok _, h2) =>
          match read matches h2 with
          | Some (CountsDict counts) =>
            match counts with
            | _ :: _ =>
              (best_category <- max (keys counts) (get counts) ;;
               response_at responses_ref best_category h2,
               h2)
            | [] => (response_at responses_ref (u "default") h2, h2)
            end
          | _ => (Raise TypeError, h2)
          end
        | (Raise e, h2) => (Raise e, h2)
        end
      | _ => (Raise TypeError, h1)
      end
  | _ => (Raise TypeError, h)
  end.

(** The store after a sequence of calls on the instance at [self]. *)
Fixpoint run (str_lower : str -> str) (self : addr) (queries : list str)
         (h : store) : store :=
  match queries with
  | [] => h
  | query :: rest =>
    run str_lower self rest (snd (process_query str_lower self query h))
  end.

(** The answer to [query] of a process that starts with the store [h0],
    builds the instance and has answered the queries of [history]
    before. *)
Definition answer (str_lower : str -> str) (h0 : store)
           (history : list str) (query : str) : result str :=
  let (self, h) := __init__ h0 in
  fst (process_query str_lower self query (run str_lower self history h)).

(** The instance at [self] has the tables of [service]. *)
Definition holds (h : store) (self : addr) (service : VoiceAssistantService)
  : Prop :=
  exists patterns_ref responses_ref,
    read self h = Some (Instance patterns_ref responses_ref)
    /\ read patterns_ref h = Some (PatternsDict service.(query_patterns))
    /\ read responses_ref h = Some (ResponsesDict service.(responses)).

End Store.

(** Boolean checks of the tables, decided by evaluation. *)
Fixpoint nodupb (l : list str) : bool :=
  match l with
  | [] => true
  | x :: l' => negb (existsb (str_eqb x) l') && nodupb l'
  end.

Definition has_response (self : VoiceAssistantService) (category : str)
  : bool :=
  match get self.(responses) category with
  | Some (_ :: _) => true
  | _ => false
  end.

(** ** The code around the responder

    The earlier version of the service kept under [attached_assets], the
    Flask routes that call the service ([routes.py]), the cached market
    prices ([services/market_service.py]) and the JSON file store
    ([models_legacy.py]). *)

#[local] Set Warnings "-register-all".

(** JSON values as [json.load] and Flask's [get_json] return them; a number
    is kept as its literal and [None] is [JNull]. *)
Inductive json :=
| JNull
| JBool (b : bool)
| JNum (literal : str)
| JStr (s : str)
| JArr (elements : list json)
| JObj (members : dict json).

(** Exceptions outside the responder: the built-in ones of [Py], attribute
    and index errors, a [KeyError] for an [int] key, a division by zero,
    and whatever the framework, the file system or the database raises. *)
Inductive error :=
| Builtin (e : exn)
| AttributeError
| IndexError
| IntKeyError (k : Z)
| ZeroDivisionError
| EnvironmentError (message : str).

Inductive outcome (A : Type) :=
| Return (a : A)
| Throw (e : error).
Arguments Return {A} a.
Arguments Throw {A} e.

Definition and_then {A B} (r : outcome A) (f : A -> outcome B) : outcome B :=
  match r with
  | Return a => f a
  | Throw e => Throw e
  end.

(** *** [attached_assets/voice_service_1753515446982.py] *)

Module Legacy.

(** [VoiceAssistantService.__init__] *)
Definition __init__ : VoiceAssistantService := {|
  query_patterns := [
    (u "weather", map u ["weather"; "temperature"; "rain"; "climate"; "forecast"; "sunny"; "cloudy"]);
    (u "prices", map u ["price"; "cost"; "market"; "sell"; "buy"; "rate"; "expensive"; "cheap"]);
    (u "disease", map u ["disease"; "sick"; "problem"; "leaf"; "plant"; "crop"; "infection"; "pest"]);
    (u "fertilizer", map u ["fertilizer"; "nutrient"; "soil"; "compost"; "manure"; "nitrogen"]);
    (u "cultivation", map u ["seed"; "planting"; "growing"; "cultivation"; "harvest"; "farming"])
  ];
  responses := [
    (u "weather",
     u "To get weather information, please provide your city name or enable location access in the Weather tab.");
    (u "prices",
     u "Check the Market Prices tab for current rates of vegetables and fruits in your area.");
    (u "disease",
     u "For plant disease detection, please take a clear photo of the affected plant leaves and upload it in the Disease Detection tab.");
    (u "fertilizer",
     u "For soil and fertilizer advice, consider getting a soil test and consult with local agricultural experts. Organic compost is generally recommended for most crops.");
    (u "cultivation",
     u "For seed and cultivation advice, check with your local agricultural extension office for region-specific recommendations based on your soil type and climate.");
    (u "greeting",
     u "Hello! I'm your GrowWise assistant. I can help you with weather information, market prices, plant disease detection, and general farming queries.");
    (u "default",
     u "I can help you with weather information, market prices, plant disease detection, and general farming queries. Please be more specific about what you'd like to know!")
  ]
|}.

Definition voice_service : VoiceAssistantService := __init__.

(** [VoiceAssistantService._is_greeting] *)
Definition _is_greeting (query : str) : bool :=
  let greetings := map u [
    "hello"; "hi"; "hey"; "good morning"; "good afternoon"; "good evening"
  ] in
  any (map (fun greeting => contains greeting query) greetings).

(** The loop of [process_query]: the first category with a keyword in the
    query returns; [None] when the loop runs to its end. *)
Fixpoint first_match (self : VoiceAssistantService)
         (items : list (str * list str)) (query_lower : str)
  : option (result str) :=
  match items with
  | [] => None
  | (category, keywords) :: rest =>
    if any (map (fun keyword => contains keyword query_lower) keywords)
    then Some (getitem self.(responses) category)
    else first_match self rest query_lower
  end.

(** [VoiceAssistantService.process_query] *)
Definition process_query (str_lower : str -> str)
           (self : VoiceAssistantService) (query : str) : result str :=
  let query_lower := strip (str_lower query) in
  if _is_greeting query_lower then getitem self.(responses) (u "greeting")
  else
    match first_match self (items self.(query_patterns)) query_lower with
    | Some returned => returned
    | None => getitem self.(responses) (u "default")
    end.

End Legacy.

(** *** [routes.py] *)

(** [s.rsplit(sep, 1)] for a separator of one code point: the text before
    and after the last [sep], when there is one. *)
Fixpoint rsplit_last (sep : N) (s : str) : option (str * str) :=
  match s with
  | [] => None
  | c :: s' =>
    match rsplit_last sep s' with
    | Some (before, after) => Some (c :: before, after)
    | None => if c =? sep then Some ([], s') else None
    end
  end.

Definition rsplit1 (sep : N) (s : str) : list str :=
  match rsplit_last sep s with
  | Some (before, after) => [before; after]
  | None => [s]
  end.

(** [xs[i]] *)
Definition index {A} (xs : list A) (i : nat) : outcome A :=
  match nth_error xs i with
  | Some x => Return x
  | None => Throw IndexError
  end.

Definition ALLOWED_EXTENSIONS : list str := map u ["png"; "jpg"; "jpeg"; "gif"].

(** A Flask response: the status code and the JSON body. *)
Record Response := {
  status : N;
  body : json
}.

(** [jsonify({'success': False, 'error': msg}), code] *)
Definition error_response (code : N) (msg : str) : Response := {|
  status := code;
  body := JObj [(u "success", JBool false); (u "error", JStr msg)]
|}.

(** [data.get(key, default)]: only a dict has [get]. *)
Definition data_get (data : json) (key : str) (default : json)
  : outcome json :=
  match data with
  | JObj d =>
    Return (match get d key with
            | Some v => v
            | None => default
            end)
  | _ => Throw AttributeError
  end.

(** [value.strip()]: only a [str] has [strip]. *)
Definition value_strip (value : json) : outcome str :=
  match value with
  | JStr s => Return (strip s)
  | _ => Throw AttributeError
  end.

Section Routes.

Variable str_lower : str -> str.
(** [str(e)] *)
Variable str_of_error : error -> str.
(** The database behind [db_manager], and [db_manager.save_voice_query]:
    the database it leaves and the exception it raises, if any. *)
Variable DB : Type.
Variable save_voice_query : DB -> str -> str -> DB * option error.

(** [allowed_file] *)
Definition allowed_file (filename : str) : outcome bool :=
  if contains (u ".") filename
  then
    and_then (index (rsplit1 46 filename) 1)
             (fun extension =>
                Return (existsb (str_eqb (str_lower extension))
                                ALLOWED_EXTENSIONS))
  else Return false.

(** The [try] block of [process_voice_query]; [get_json] is what
    [request.get_json()] returns or raises. *)
Definition process_voice_query_try (get_json : outcome json) (db : DB)
  : outcome Response * DB :=
  match get_json with
  | Throw e => (Throw e, db)
  | Return data =>
    match and_then (data_get data (u "query") (JStr (u ""))) value_strip with
    | Throw e => (Throw e, db)
    | Return [] => (Return (error_response 400 (u "Query is required")), db)
    | Return ((_ :: _) as query) =>
      match process_query str_lower voice_service query with
      | Raise e => (Throw (Builtin e), db)
      | Ok response =>
        match save_voice_query db query response with
        | (db', Some e) => (Throw e, db')
        | (db', None) =>
          (Return {| status := 200;
                     body := JObj [(u "success", JBool true);
                                   (u "data",
                                    JObj [(u "query", JStr query);
                                          (u "response", JStr response)])]
                  |},
           db')
        end
      end
    end
  end.

(** [process_voice_query]: any exception becomes a 500 response carrying
    [str(e)]. *)
Definition process_voice_query (get_json : outcome json) (db : DB)
  : Response * DB :=
  match process_voice_query_try get_json db with
  | (Return response, db') => (response, db')
  | (Throw e, db') => (error_response 500 (str_of_error e), db')
  end.

End Routes.

(** *** [services/market_service.py] *)

Definition price_item (category name price : string) : json :=
  JObj [(u "category", JStr (u category));
        (u "name", JStr (u name));
        (u "price", JStr (u price))].

(** The list returned when the cache cannot be used. *)
Definition fallback_prices : list json := [
  price_item "Vegetable" "Onion" "₹30-40/kg";
  price_item "Vegetable" "Tomato" "₹25-35/kg";
  price_item "Fruit" "Apple" "₹120-150/kg";
  price_item "Fruit" "Banana" "₹40-50/dozen"
].

(** [for p in prices]: a list gives its elements, a dict its keys, a [str]
    its characters; nothing else can be iterated. *)
Definition iterate (prices : json) : outcome (list json) :=
  match prices with
  | JArr elements => Return elements
  | JObj members => Return (map JStr (keys members))
  | JStr s => Return (map (fun c => JStr [c]) s)
  | _ => Throw (Builtin TypeError)
  end.

Section Market.

Variable str_lower : str -> str.

(** [p['category'].lower()] *)
Definition item_category_lower (p : json) : outcome str :=
  match p with
  | JObj members =>
    match get members (u "category") with
    | Some (JStr s) => Return (str_lower s)
    | Some _ => Throw AttributeError
    | None => Throw (Builtin (KeyError (u "category")))
    end
  | _ => Throw (Builtin TypeError)
  end.

(** [[p for p in prices if p['category'].lower() == category.lower()]] *)
Fixpoint select_category (category : str) (prices : list json)
  : outcome (list json) :=
  match prices with
  | [] => Return []
  | p :: rest =>
    and_then (item_category_lower p)
             (fun c =>
                and_then (select_category category rest)
                         (fun selected =>
                            Return (if str_eqb c (str_lower category)
                                    then p :: selected else selected)))
  end.

(** [MarketPriceService.get_market_prices]; [cache] is what opening and
    loading [self.cache_file] returns or raises. *)
Definition get_market_prices (cache : outcome json) (category : str) : json :=
  let attempt :=
    and_then cache
             (fun prices =>
                if str_eqb (str_lower category) (u "all") then Return prices
                else
                  and_then (iterate prices)
                           (fun elements =>
                              and_then (select_category category elements)
                                       (fun selected =>
                                          Return (JArr selected)))) in
  match attempt with
  | Return prices => prices
  | Throw _ => JArr fallback_prices
  end.

End Market.

(** *** [models_legacy.py] *)

(** A file of the data directory: absent ([open] raises
    [FileNotFoundError]), readable text that is not JSON ([json.load] raises
    [JSONDecodeError]), a file whose opening, reading or decoding raises
    another exception (a directory, no permission, bytes that are not
    UTF-8, JSON nested too deep), or the JSON text of a value. *)
Inductive file :=
| Missing
| Malformed
| Unreadable (e : error)
| Holds (content : json).

Definition filesystem := str -> file.

(** [os.path.join(self.data_dir, filename)] with [data_dir = "data"]. *)
Definition data_path (filename : string) : str := u "data/" ++ u filename.

(** [xs[start:]] for an [int] start. *)
Definition slice_from {A} (start : Z) (xs : list A) : list A :=
  let len := Z.of_nat (List.length xs) in
  let start := if (start <? 0)%Z then Z.max (start + len) 0
               else Z.min start len in
  skipn (Z.to_nat start) xs.

(** [DataManager.load_json]: only [FileNotFoundError] and
    [JSONDecodeError] are caught and give the empty list; any other
    exception leaves the method. *)
Definition load_json (fs : filesystem) (filepath : str) : outcome json :=
  match fs filepath with
  | Holds content => Return content
  | Missing | Malformed => Return (JArr [])
  | Unreadable e => Throw e
  end.

(** [DataManager.save_json]; in this file system a write goes through, so
    the handler that reports a failed write is never entered.  The callers
    modelled here write a file only after [load_json] has returned for
    it. *)
Definition save_json (fs : filesystem) (filepath : str) (data : json)
  : filesystem :=
  fun path => if str_eqb path filepath then Holds data else fs path.

(** [DataManager.save_voice_query]; [now] is
    [datetime.now().isoformat()]. *)
Definition save_voice_query (now : str) (fs : filesystem)
           (query response : str) : outcome filesystem :=
  let filepath := data_path "voice_queries.json" in
  and_then
    (load_json fs filepath)
    (fun queries =>
       let query_entry :=
         JObj [(u "query", JStr query);
               (u "response", JStr response);
               (u "timestamp", JStr now)] in
       match queries with
       | JArr entries =>
         let queries := entries ++ [query_entry] in
         let queries := slice_from (-100) queries in
         Return (save_json fs filepath (JArr queries))
       | _ => Throw AttributeError
       end).

(** [DataManager.get_prediction_history]; a list and a [str] can be sliced,
    a dict raises [dict_slice_error] ([TypeError] before Python 3.12,
    [KeyError] from then on), anything else [TypeError]. *)
Definition get_prediction_history (dict_slice_error : error)
           (fs : filesystem) (limit : Z) : outcome json :=
  let filepath := data_path "predictions.json" in
  and_then
    (load_json fs filepath)
    (fun predictions =>
       match predictions with
       | JArr entries => Return (JArr (rev (slice_from (- limit) entries)))
       | JStr s => Return (JStr (rev (slice_from (- limit) s)))
       | JObj _ => Throw dict_slice_error
       | _ => Throw (Builtin TypeError)
       end).

(** *** [models/cnn_model.py] and
        [attached_assets/disease_service_1753515446981.py] *)

(** [DISEASE_CLASSES] *)
Definition DISEASE_CLASSES : list (Z * str) := [
  (0, u "Apple___Apple_scab");
  (1, u "Apple___Black_rot");
  (2, u "Apple___Cedar_apple_rust");
  (3, u "Apple___healthy");
  (4, u "Background_without_leaves");
  (5, u "Blueberry___healthy");
  (6, u "Cherry___Powdery_mildew");
  (7, u "Cherry___healthy");
  (8, u "Corn___Cercospora_leaf_spot Gray_leaf_spot");
  (9, u "Corn___Common_rust");
  (10, u "Corn___Northern_Leaf_Blight");
  (11, u "Corn___healthy");
  (12, u "Grape___Black_rot");
  (13, u "Grape___Esca_(Black_Measles)");
  (14, u "Grape___Leaf_blight_(Isariopsis_Leaf_Spot)");
  (15, u "Grape___healthy");
  (16, u "Orange___Haunglongbing_(Citrus_greening)");
  (17, u "Peach___Bacterial_spot");
  (18, u "Peach___healthy");
  (19, u "Pepper,_bell___Bacterial_spot");
  (20, u "Pepper,_bell___healthy");
  (21, u "Potato___Early_blight");
  (22, u "Potato___Late_blight");
  (23, u "Potato___healthy");
  (24, u "Raspberry___healthy");
  (25, u "Soybean___healthy");
  (26, u "Squash___Powdery_mildew");
  (27, u "Strawberry___Leaf_scorch");
  (28, u "Strawberry___healthy");
  (29, u "Tomato___Bacterial_spot");
  (30, u "Tomato___Early_blight");
  (31, u "Tomato___Late_blight");
  (32, u "Tomato___Leaf_Mold");
  (33, u "Tomato___Septoria_leaf_spot");
  (34, u "Tomato___Spider_mites Two-spotted_spider_mite");
  (35, u "Tomato___Target_Spot");
  (36, u "Tomato___Tomato_Yellow_Leaf_Curl_Virus");
  (37, u "Tomato___Tomato_mosaic_virus");
  (38, u "Tomato___healthy")
]%Z.

(** [TREATMENT_RECOMMENDATIONS] *)
Definition TREATMENT_RECOMMENDATIONS : dict str := [
  (u "Apple___Apple_scab",
   u "Apply fungicide spray during wet weather. Remove fallen leaves and improve air circulation.");
  (u "Apple___Black_rot",
   u "Prune infected branches, apply copper-based fungicide, and remove mummified fruits.");
  (u "Apple___Cedar_apple_rust",
   u "Remove nearby cedar trees if possible, apply preventive fungicide sprays.");
  (u "Tomato___Late_blight",
   u "Remove affected leaves immediately, apply copper fungicide, ensure good drainage.");
  (u "Tomato___Early_blight",
   u "Apply fungicide spray, remove lower leaves, and ensure proper spacing for air circulation.");
  (u "Tomato___Bacterial_spot",
   u "Use copper-based bactericide, avoid overhead watering, remove infected plants.");
  (u "Corn___Common_rust",
   u "Use resistant varieties, apply fungicide if infection is severe, remove crop residues.");
  (u "Corn___Northern_Leaf_Blight",
   u "Rotate crops, use resistant varieties, apply fungicide if needed.");
  (u "Grape___Black_rot",
   u "Prune for air circulation, apply preventive fungicide sprays, remove infected berries.");
  (u "Potato___Late_blight",
   u "Apply copper-based fungicide, avoid overhead watering, harvest early if needed.");
  (u "Potato___Early_blight",
   u "Rotate crops, apply fungicide, remove infected foliage.");
  (u "healthy",
   u "Plant appears healthy! Continue with regular care and monitoring.");
  (u "Background_without_leaves",
   u "Please take a clearer photo showing plant leaves for accurate diagnosis.")
].

(** [classes[idx]] for a dict with [int] keys. *)
Fixpoint class_of (classes : list (Z * str)) (idx : Z) : outcome str :=
  match classes with
  | [] => Throw (IntKeyError idx)
  | (i, name) :: rest =>
    if (i =? idx)%Z then Return name else class_of rest idx
  end.

(** [s.replace(old, new)] for a non-empty [old]: the occurrences of [old]
    are replaced from left to right, without overlap; [skip] counts the
    code points of a replaced occurrence that are still to be passed. *)
Fixpoint replace_from (old new : str) (skip : nat) (s : str) : str :=
  match s with
  | [] => []
  | c :: s' =>
    match skip with
    | S k => replace_from old new k s'
    | O =>
      if startswith old s
      then new ++ replace_from old new (List.length old - 1) s'
      else c :: replace_from old new 0 s'
    end
  end.

Definition replace (old new s : str) : str := replace_from old new 0 s.

(** [DiseaseDetectionService._format_disease_name] *)
Definition _format_disease_name (disease_key : str) : str :=
  replace (u "_") (u " ") (replace (u "___") (u " - ") disease_key).

(** The dict [predict_disease] returns. *)
Record Prediction (Confidence : Type) := {
  disease : str;
  confidence : Confidence;
  treatment : str;
  formatted_name : str
}.
Arguments disease {Confidence} _.
Arguments confidence {Confidence} _.
Arguments treatment {Confidence} _.
Arguments formatted_name {Confidence} _.

Section DiseaseService.

(** Floats are kept abstract: [zero] is [0.0] and [percent c] is
    [float(c * 100)].  The model and the transform are the runtime's; what
    loading the image and running the model on it gives, the confidence and
    the predicted index or an exception, is [infer]. *)
Variable Confidence : Type.
Variable zero : Confidence.
Variable percent : Confidence -> Confidence.
Variables Model Transform : Type.
Variable infer : Model -> Transform -> list N -> outcome (Confidence * Z).

Record DiseaseDetectionService := {
  model : option Model;
  transform : option Transform
}.

(** [DiseaseDetectionService.is_model_available] *)
Definition is_model_available (self : DiseaseDetectionService) : bool :=
  match self.(model), self.(transform) with
  | Some _, Some _ => true
  | _, _ => false
  end.

(** [DiseaseDetectionService.predict_disease]; any exception of the [try]
    block, calling an absent model or transform included, becomes the
    HTTP 500 error. *)
Definition predict_disease (self : DiseaseDetectionService)
           (image_bytes : list N) : outcome (Prediction Confidence) :=
  if negb (is_model_available self)
  then
    Return {| disease := u "model_unavailable";
              confidence := zero;
              treatment := u "Disease detection model is currently unavailable. Please ensure the model file is present and try again.";
              formatted_name := u "Model Unavailable" |}
  else
    let attempt :=
      match self.(model), self.(transform) with
      | Some the_model, Some the_transform =>
        and_then
          (infer the_model the_transform image_bytes)
          (fun '(confidence, predicted_idx) =>
             and_then
               (class_of DISEASE_CLASSES predicted_idx)
               (fun disease_key =>
                  let confidence_score := percent confidence in
                  let formatted_name := _format_disease_name disease_key in
                  let treatment :=
                    match get TREATMENT_RECOMMENDATIONS disease_key with
                    | Some t => t
                    | None =>
                      u "Consult with local agricultural extension officer for specific treatment"
                    end in
                  Return {| disease := disease_key;
                            confidence := confidence_score;
                            treatment := treatment;
                            formatted_name := formatted_name |}))
      | _, _ => Throw (Builtin TypeError)
      end in
    match attempt with
    | Return result => Return result
    | Throw _ =>
      Throw (EnvironmentError
               (u "Error processing image for disease detection"))
    end.

End DiseaseService.

(** [s.endswith(suffix)] *)
Definition endswith (suffix s : str) : bool :=
  startswith (rev suffix) (rev s).

(** *** [services/disease_service.py] *)

(** An exception of [Py] seen from the surrounding code. *)
Definition lift {A} (r : result A) : outcome A :=
  match r with
  | Ok a => Return a
  | Raise e => Throw (Builtin e)
  end.

Module Color.

Record DiseaseDetectionService := {
  disease_patterns : dict (dict str)
}.

(** [DiseaseDetectionService.__init__] *)
Definition __init__ : DiseaseDetectionService := {|
  disease_patterns := [
    (u "brown_spots",
     [(u "name", u "Possible Brown Spot Disease");
      (u "treatment", u "Apply copper-based fungicide spray. Remove affected leaves and improve air circulation.")]);
    (u "yellow_leaves",
     [(u "name", u "Possible Yellowing/Chlorosis");
      (u "treatment", u "Check for nutrient deficiency (nitrogen). Ensure proper watering and fertilization.")]);
    (u "dark_patches",
     [(u "name", u "Possible Blight or Bacterial Infection");
      (u "treatment", u "Remove infected parts immediately. Apply bactericide and ensure good drainage.")]);
    (u "white_patches",
     [(u "name", u "Possible Powdery Mildew");
      (u "treatment", u "Improve air circulation. Apply fungicide spray and avoid overhead watering.")]);
    (u "healthy",
     [(u "name", u "Plant Appears Healthy");
      (u "treatment", u "Continue with regular care and monitoring. Maintain proper watering and fertilization.")])
  ]
|}.

Definition disease_service : DiseaseDetectionService := __init__.

Section Analysis.

(** Floats are kept abstract: [lit] reads a literal, [fadd], [fgt] and
    [flt] are [+], [>] and [<], and [a / b] raises when [b] is zero and is
    [quotient a b] otherwise.  [image_mean] is what opening the image,
    converting it to RGB and taking [ImageStat.Stat(image).mean] gives or
    raises. *)
Variable F : Type.
Variable lit : string -> F.
Variables fadd quotient : F -> F -> F.
Variable is_zero : F -> bool.
Variables fgt flt : F -> F -> bool.
Variable image_mean : list N -> outcome (F * F * F).

Definition fdiv (a b : F) : outcome F :=
  if is_zero b then Throw ZeroDivisionError else Return (quotient a b).

(** [DiseaseDetectionService._analyze_colors] *)
Definition _analyze_colors (self : DiseaseDetectionService)
           (avg_r avg_g avg_b : F) : outcome (str * F) :=
  and_then
    (fdiv avg_g (fadd (fadd avg_r avg_g) avg_b))
    (fun green_ratio =>
       and_then
         (fdiv avg_r (fadd (fadd avg_r avg_g) avg_b))
         (fun red_ratio =>
            if fgt green_ratio (lit "0.4") && fgt avg_g avg_r
               && fgt avg_g avg_b
            then Return (u "healthy", lit "85.0")
            else if fgt red_ratio (lit "0.35") && fgt avg_r avg_g
            then Return (u "brown_spots", lit "75.0")
            else if fgt avg_r (lit "150") && fgt avg_g (lit "150")
                    && flt avg_b (lit "100")
            then Return (u "yellow_leaves", lit "70.0")
            else if flt avg_r (lit "100") && flt avg_g (lit "100")
                    && flt avg_b (lit "100")
            then Return (u "dark_patches", lit "65.0")
            else if fgt avg_r (lit "200") && fgt avg_g (lit "200")
                    && fgt avg_b (lit "200")
            then Return (u "white_patches", lit "60.0")
            else Return (u "healthy", lit "50.0"))).

(** [DiseaseDetectionService.analyze_image] *)
Definition analyze_image (self : DiseaseDetectionService)
           (image_data : list N) : Prediction F :=
  let attempt :=
    and_then
      (image_mean image_data)
      (fun '(avg_r, avg_g, avg_b) =>
         and_then
           (_analyze_colors self avg_r avg_g avg_b)
           (fun '(disease_type, confidence) =>
              and_then
                (lift (getitem self.(disease_patterns) disease_type))
                (fun disease_info =>
                   and_then
                     (lift (getitem disease_info (u "treatment")))
                     (fun the_treatment =>
                        and_then
                          (lift (getitem disease_info (u "name")))
                          (fun the_name =>
                             Return {| disease := disease_type;
                                       confidence := confidence;
                                       treatment := the_treatment;
                                       formatted_name := the_name |})))))
  in
  match attempt with
  | Return result => result
  | Throw _ =>
    {| disease := u "analysis_error";
       confidence := lit "0.0";
       treatment := u "Unable to analyze image. Please ensure the image shows clear plant leaves and try again.";
       formatted_name := u "Analysis Error" |}
  end.

End Analysis.

End Color.

(** Specification-level notions for the price filter: a price entry is an
    object whose ['category'] is a string, and it matches a requested
    category when the two agree after lowercasing. *)
Definition entry_category (p : json) : option str :=
  match p with
  | JObj members =>
    match get members (u "category") with
    | Some (JStr s) => Some s
    | _ => None
    end
  | _ => None
  end.

Definition entry_matches (str_lower : str -> str) (category : str) (p : json)
  : bool :=
  match entry_category p with
  | Some s => str_eqb (str_lower s) (str_lower category)
  | None => false
  end.

(** ** Strings *)

Lemma str_eqb_refl (a : str) : str_eqb a a = true.
Proof.
  induction a as [|x a IH]; simpl; [reflexivity|].
  now rewrite N.eqb_refl.
Qed.

Lemma str_eqb_eq (a b : str) : str_eqb a b = true <-> a = b.
Proof.
  split.
  - revert b; induction a as [|x a IH]; intros [|y b] H; simpl in H;
      try discriminate; [reflexivity|].
    apply andb_true_iff in H as [Hx Ha].
    apply N.eqb_eq in Hx. apply IH in Ha. now subst.
  - intros ->. apply str_eqb_refl.
Qed.

Lemma str_eqb_neq (a b : str) : str_eqb a b = false <-> a <> b.
Proof.
  rewrite <- str_eqb_eq. destruct (str_eqb a b); split; congruence.
Qed.

Lemma startswith_spec (p s : str) :
  startswith p s = true <-> exists b, s = p ++ b.
Proof.
  revert s; induction p as [|x p IH]; intros s; simpl.
  - split; [intros _; now exists s | reflexivity].
  - destruct s as [|y s].
    + split; [discriminate | intros [b Hb]; discriminate].
    + rewrite andb_true_iff, N.eqb_eq, IH. split.
      * intros [-> [b ->]]. now exists b.
      * intros [b Hb]. injection Hb as -> ->. split; [reflexivity | now exists b].
Qed.

Lemma contains_spec (p s : str) :
  contains p s = true <-> exists a b, s = a ++ p ++ b.
Proof.
  induction s as [|y s IH]; simpl.
  - rewrite orb_false_r, startswith_spec. split.
    + intros [b Hb]. now exists [], b.
    + intros [a [b Hab]]. destruct a; simpl in Hab.
      * now exists b.
      * discriminate.
  - rewrite orb_true_iff, startswith_spec, IH. split.
    + intros [[b Hb] | [a [b Hab]]].
      * now exists [], b.
      * exists (y :: a), b. simpl. now rewrite Hab.
    + intros [[|z a] [b Hab]]; simpl in Hab.
      * left. now exists b.
      * right. injection Hab as _ Hab. now exists a, b.
Qed.

Lemma sum_ones {A} (l : list A) :
  sum (map (fun _ => 1) l) = N.of_nat (List.length l).
Proof.
  unfold sum.
  assert (H : forall acc, fold_left N.add (map (fun _ : A => 1) l) acc
                          = acc + N.of_nat (List.length l)).
  { induction l as [|x l IH]; intros acc; simpl List.length; simpl map; simpl fold_left.
    - simpl. lia.
    - rewrite IH. lia. }
  rewrite H. lia.
Qed.

Lemma match_count_length (keywords : list str) (q : str) :
  match_count keywords q
  = N.of_nat (List.length (filter (fun k => contains k q) keywords)).
Proof. unfold match_count. apply sum_ones. Qed.

Lemma match_count_distinct (keywords : list str) (q : str) :
  NoDup keywords ->
  match_count keywords q = distinct_triggers_present keywords q.
Proof.
  intros Hnd. rewrite match_count_length. unfold distinct_triggers_present.
  rewrite nodup_fixed_point; [reflexivity|].
  now apply NoDup_filter.
Qed.

Lemma match_count_zero (keywords : list str) (q : str) :
  match_count keywords q = 0
  <-> forall k, In k keywords -> contains k q = false.
Proof.
  rewrite match_count_length. split.
  - intros H k Hk. destruct (contains k q) eqn:E; [|reflexivity].
    assert (Hin : In k (filter (fun k => contains k q) keywords))
      by (apply filter_In; auto).
    destruct (filter (fun k => contains k q) keywords); [contradiction|].
    simpl in H. lia.
  - intros H. induction keywords as [|k ks IH]; [reflexivity|].
    simpl. rewrite (H k) by (now left). apply IH.
    intros k' Hk'. apply H. now right.
Qed.

(** ** Dictionaries *)

Section DictFacts.
Context {V : Type}.
Implicit Types (d : dict V) (k : str) (v : V).

Lemma get_absent d k : ~ In k (keys d) -> get d k = None.
Proof.
  induction d as [|[k' v'] d IH]; simpl; intros Hk; [reflexivity|].
  destruct (str_eqb k' k) eqn:E.
  - apply str_eqb_eq in E. tauto.
  - apply IH. tauto.
Qed.

Lemma get_present d k : In k (keys d) -> exists v, get d k = Some v.
Proof.
  induction d as [|[k' v'] d IH]; simpl; intros Hk; [contradiction|].
  destruct (str_eqb k' k) eqn:E; [now exists v'|].
  apply str_eqb_neq in E. destruct Hk as [Hk|Hk]; [contradiction|auto].
Qed.

Lemma setitem_fresh d k v : ~ In k (keys d) -> setitem d k v = d ++ [(k, v)].
Proof.
  induction d as [|[k' v'] d IH]; simpl; intros Hk; [reflexivity|].
  destruct (str_eqb k' k) eqn:E.
  - apply str_eqb_eq in E. tauto.
  - rewrite IH by tauto. reflexivity.
Qed.

Lemma keys_app d1 d2 : keys (d1 ++ d2) = keys d1 ++ keys d2.
Proof. apply map_app. Qed.

End DictFacts.

(** ** The scoring loop *)

Lemma scores_cons (item : str * list str) patterns q :
  scores (item :: patterns) q
  = (if 0 <? match_count (snd item) q
     then [(fst item, match_count (snd item) q)] else [])
      ++ scores patterns q.
Proof. reflexivity. Qed.

Lemma scores_app p1 p2 q : scores (p1 ++ p2) q = scores p1 q ++ scores p2 q.
Proof. apply flat_map_app. Qed.

Lemma keys_scores_incl patterns q k :
  In k (keys (scores patterns q)) -> In k (keys patterns).
Proof.
  induction patterns as [|[c kws] ps IH]; [auto|].
  rewrite scores_cons, keys_app. simpl fst; simpl snd. intros H.
  apply in_app_or in H as [H|H].
  - destruct (0 <? match_count kws q); simpl in H; [|contradiction].
    left. tauto.
  - right. auto.
Qed.

Lemma NoDup_keys_scores patterns q :
  NoDup (keys patterns) -> NoDup (keys (scores patterns q)).
Proof.
  induction patterns as [|[c kws] ps IH]; intros Hnd; [constructor|].
  rewrite scores_cons, keys_app. simpl fst; simpl snd.
  simpl in Hnd. apply NoDup_cons_iff in Hnd as [Hc Hps].
  destruct (0 <? match_count kws q); simpl; [|auto].
  constructor; [|auto].
  intros H. apply Hc. eapply keys_scores_incl, H.
Qed.

(** The loop builds exactly [scores]: with distinct categories every
    [matches[category] = match_count] appends a new key. *)
Lemma score_loop_acc patterns q :
  NoDup (keys patterns) ->
  forall acc,
    (forall k, In k (keys patterns) -> ~ In k (keys acc)) ->
    fold_left (score_step q) patterns acc = acc ++ scores patterns q.
Proof.
  induction patterns as [|[c kws] ps IH]; intros Hnd acc Hfresh.
  - simpl. now rewrite app_nil_r.
  - simpl in Hnd. apply NoDup_cons_iff in Hnd as [Hc Hps].
    cbn [fold_left]. rewrite scores_cons. simpl fst; simpl snd.
    change (score_step q acc (c, kws))
      with (if 0 <? match_count kws q
            then setitem acc c (match_count kws q) else acc).
    destruct (0 <? match_count kws q).
    + rewrite setitem_fresh by (apply Hfresh; now left).
      rewrite IH; [now rewrite <- app_assoc | assumption |].
      intros k Hk. rewrite keys_app. intros Hin.
      apply in_app_or in Hin as [Hin|Hin].
      * apply (Hfresh k); [now right | assumption].
      * simpl in Hin. destruct Hin as [<-|[]]. contradiction.
    + apply IH; [assumption|].
      intros k Hk. apply Hfresh. now right.
Qed.

Lemma score_loop_scores (self : VoiceAssistantService) q :
  NoDup (keys self.(query_patterns)) ->
  score_loop self q = scores self.(query_patterns) q.
Proof.
  intros Hnd. unfold score_loop, items.
  rewrite score_loop_acc; auto.
Qed.

(** What [matches.get] returns for a category of the table. *)
Lemma get_scores patterns q c kws :
  NoDup (keys patterns) ->
  In (c, kws) patterns ->
  get (scores patterns q) c
  = if 0 <? match_count kws q then Some (match_count kws q) else None.
Proof.
  induction patterns as [|[c0 k0] ps IH]; intros Hnd Hin; [contradiction|].
  simpl in Hnd. apply NoDup_cons_iff in Hnd as [Hc Hps].
  rewrite scores_cons. simpl fst; simpl snd.
  destruct Hin as [[= -> ->]|Hin].
  - destruct (0 <? match_count kws q); simpl.
    + now rewrite str_eqb_refl.
    + apply get_absent. intros H. apply Hc. eapply keys_scores_incl, H.
  - assert (Hne : c0 <> c).
    { intros ->. apply Hc. change c with (fst (c, kws)). now apply in_map. }
    destruct (0 <? match_count k0 q); simpl.
    + apply str_eqb_neq in Hne. rewrite Hne. now apply IH.
    + now apply IH.
Qed.

Lemma score_of_scores patterns q c kws :
  NoDup (keys patterns) ->
  In (c, kws) patterns ->
  score_of (scores patterns q) c = match_count kws q.
Proof.
  intros Hnd Hin. unfold score_of. rewrite (get_scores _ _ _ _ Hnd Hin).
  destruct (0 <? match_count kws q) eqn:E; [reflexivity|].
  apply N.ltb_ge in E. lia.
Qed.

Lemma scores_nil_iff patterns q :
  scores patterns q = []
  <-> forall c kws, In (c, kws) patterns -> match_count kws q = 0.
Proof.
  induction patterns as [|[c0 k0] ps IH].
  - split; [intros _ c kws [] | reflexivity].
  - rewrite scores_cons. simpl fst; simpl snd. split.
    + intros H c kws Hin.
      destruct (0 <? match_count k0 q) eqn:E; [discriminate|].
      simpl in H. destruct Hin as [[= <- <-]|Hin].
      * apply N.ltb_ge in E. lia.
      * now apply (proj1 IH H c).
    + intros H. assert (H0 := H c0 k0 (or_introl eq_refl)).
      rewrite H0. simpl. apply IH. intros c kws Hin. apply (H c). now right.
Qed.

(** ** [max] with a key *)

Section MaxFacts.
Variable key : str -> option N.
Variable kv : str -> N.

(** Invariant of the scan: everything before the running best is strictly
    below it, everything seen after it is at most equal. *)
Lemma max_loop_first_max (rest : list str) :
  forall best pre mid,
    (forall x, In x rest -> key x = Some (kv x)) ->
    (forall x, In x pre -> kv x < kv best) ->
    (forall x, In x mid -> kv x <= kv best) ->
    exists l1 m l2,
      pre ++ best :: mid ++ rest = l1 ++ m :: l2
      /\ max_loop key best (Some (kv best)) rest = Ok m
      /\ (forall x, In x l1 -> kv x < kv m)
      /\ (forall x, In x l2 -> kv x <= kv m).
Proof.
  induction rest as [|x rest IH]; intros best pre mid Hkey Hpre Hmid.
  - exists pre, best, mid. rewrite app_nil_r. simpl. auto.
  - simpl. rewrite (Hkey x) by (now left).
    destruct (kv best <? kv x) eqn:E.
    + apply N.ltb_lt in E.
      destruct (IH x (pre ++ best :: mid) []) as (l1 & m & l2 & Hs & Hm & H1 & H2).
      * intros y Hy. apply Hkey. now right.
      * intros y Hy. apply in_app_or in Hy as [Hy|[<-|Hy]].
        -- specialize (Hpre y Hy). lia.
        -- assumption.
        -- specialize (Hmid y Hy). lia.
      * intros y [].
      * exists l1, m, l2. repeat split; auto.
        rewrite <- Hs. simpl. now rewrite <- app_assoc.
    + apply N.ltb_ge in E.
      destruct (IH best pre (mid ++ [x])) as (l1 & m & l2 & Hs & Hm & H1 & H2).
      * intros y Hy. apply Hkey. now right.
      * assumption.
      * intros y Hy. apply in_app_or in Hy as [Hy|[<-|[]]]; auto.
      * exists l1, m, l2. repeat split; auto.
        rewrite <- Hs. now rewrite <- app_assoc.
Qed.

Lemma max_first_max (xs : list str) :
  xs <> [] ->
  (forall x, In x xs -> key x = Some (kv x)) ->
  exists l1 m l2,
    xs = l1 ++ m :: l2
    /\ max xs key = Ok m
    /\ (forall x, In x l1 -> kv x < kv m)
    /\ (forall x, In x l2 -> kv x <= kv m).
Proof.
  destruct xs as [|x rest]; [congruence|]. intros _ Hkey.
  destruct (max_loop_first_max rest x [] []) as (l1 & m & l2 & Hs & Hm & H1 & H2).
  - intros y Hy. apply Hkey. now right.
  - intros y [].
  - intros y [].
  - exists l1, m, l2. repeat split; auto.
    simpl. rewrite (Hkey x) by (now left). exact Hm.
Qed.

End MaxFacts.

Lemma NoDup_split_unique {A} (x : A) (a b a' b' : list A) :
  NoDup (a ++ x :: b) ->
  a ++ x :: b = a' ++ x :: b' ->
  a = a' /\ b = b'.
Proof.
  revert a'. induction a as [|y a IH]; intros a' Hnd Heq.
  - destruct a' as [|z a']; simpl in *.
    + injection Heq as ->. auto.
    + injection Heq as <- ->. apply NoDup_cons_iff in Hnd as [Hx _].
      exfalso. apply Hx. apply in_or_app. right. now left.
  - destruct a' as [|z a']; simpl in *.
    + injection Heq as -> <-. apply NoDup_cons_iff in Hnd as [Hx _].
      exfalso. apply Hx. apply in_or_app. right. now left.
    + injection Heq as <- Heq. apply NoDup_cons_iff in Hnd as [_ Hnd].
      destruct (IH a' Hnd Heq) as [-> ->]. auto.
Qed.

Lemma score_of_key (matches : dict N) (k : str) :
  In k (keys matches) -> get matches k = Some (score_of matches k).
Proof.
  intros Hk. unfold score_of. destruct (get_present matches k Hk) as [v ->].
  reflexivity.
Qed.

Lemma in_keys_item {V} (d : dict V) k :
  In k (keys d) -> exists v, In (k, v) d.
Proof.
  unfold keys. rewrite in_map_iff. intros [[k' v] [<- Hin]]. now exists v.
Qed.

Lemma in_item_keys {V} (d : dict V) k v : In (k, v) d -> In k (keys d).
Proof. intros H. change k with (fst (k, v)). now apply in_map. Qed.

Lemma in_scores patterns q c kws :
  In (c, kws) patterns -> 0 < match_count kws q ->
  In c (keys (scores patterns q)).
Proof.
  intros Hin Hpos. apply (in_item_keys _ _ (match_count kws q)).
  unfold scores. apply in_flat_map. exists (c, kws). split; [assumption|].
  simpl. apply N.ltb_lt in Hpos. rewrite Hpos. now left.
Qed.

(** The selection of [process_query] on a table with distinct categories:
    the winner is in the table, has a positive count, beats every category
    declared before it and is not beaten by any declared after it. *)
Lemma best_category_first_max (patterns : dict (list str)) (q : str) :
  NoDup (keys patterns) ->
  scores patterns q <> [] ->
  exists before c kws after,
    patterns = before ++ (c, kws) :: after
    /\ max (keys (scores patterns q)) (get (scores patterns q)) = Ok c
    /\ 0 < match_count kws q
    /\ (forall c' kws', In (c', kws') before ->
                        match_count kws' q < match_count kws q)
    /\ (forall c' kws', In (c', kws') after ->
                        match_count kws' q <= match_count kws q).
Proof.
  intros Hnd Hne.
  destruct (max_first_max (get (scores patterns q))
                          (score_of (scores patterns q))
                          (keys (scores patterns q)))
    as (l1 & m & l2 & Hs & Hm & H1 & H2).
  - destruct (scores patterns q); [congruence | discriminate].
  - intros x Hx. now apply score_of_key.
  - assert (Hmk : In m (keys (scores patterns q)))
      by (rewrite Hs; apply in_or_app; right; now left).
    destruct (in_keys_item _ _ (keys_scores_incl _ _ _ Hmk)) as [kws Hin].
    destruct (in_split _ _ Hin) as (before & after & Hp).
    assert (Hpos : 0 < match_count kws q).
    { destruct (get_present _ _ Hmk) as [v Hv].
      rewrite (get_scores _ _ _ _ Hnd Hin) in Hv.
      destruct (0 <? match_count kws q) eqn:E; [|discriminate].
      now apply N.ltb_lt. }
    assert (Hsc : keys (scores patterns q)
                  = keys (scores before q) ++ m :: keys (scores after q)).
    { rewrite Hp at 1. rewrite scores_app, scores_cons, keys_app.
      simpl fst; simpl snd. apply N.ltb_lt in Hpos. rewrite Hpos.
      reflexivity. }
    assert (Hnds := NoDup_keys_scores patterns q Hnd).
    rewrite Hsc in Hnds. rewrite Hsc in Hs.
    destruct (NoDup_split_unique _ _ _ _ _ Hnds Hs) as [<- <-].
    assert (Hm_score : score_of (scores patterns q) m = match_count kws q)
      by (now apply score_of_scores).
    exists before, m, kws, after. repeat split; auto.
    + intros c' kws' Hin'.
      destruct (N.eq_dec (match_count kws' q) 0) as [Hz|Hnz]; [lia|].
      assert (Hc' : In c' (keys (scores before q)))
        by (apply (in_scores _ _ _ kws'); [assumption | lia]).
      specialize (H1 c' Hc'). rewrite Hm_score in H1.
      rewrite (score_of_scores patterns q c' kws') in H1; auto.
      rewrite Hp. apply in_or_app. now left.
    + intros c' kws' Hin'.
      destruct (N.eq_dec (match_count kws' q) 0) as [Hz|Hnz]; [lia|].
      assert (Hc' : In c' (keys (scores after q)))
        by (apply (in_scores _ _ _ kws'); [assumption | lia]).
      specialize (H2 c' Hc'). rewrite Hm_score in H2.
      rewrite (score_of_scores patterns q c' kws') in H2; auto.
      rewrite Hp. apply in_or_app. right. now right.
Qed.

(** ** [strip] and [lower] *)

Lemma dropwhile_head (f : N -> bool) (s : str) :
  dropwhile f s = [] \/ exists c r, dropwhile f s = c :: r /\ f c = false.
Proof.
  induction s as [|c s IH]; simpl; [now left|].
  destruct (f c) eqn:E; [assumption|]. right. now exists c, s.
Qed.

Lemma dropwhile_stop (f : N -> bool) (c : N) (r : str) :
  f c = false -> dropwhile f (c :: r) = c :: r.
Proof. intros H. simpl. now rewrite H. Qed.

Lemma dropwhile_idem (f : N -> bool) (s : str) :
  dropwhile f (dropwhile f s) = dropwhile f s.
Proof.
  destruct (dropwhile_head f s) as [->|(c & r & -> & Hc)]; [reflexivity|].
  now apply dropwhile_stop.
Qed.

(** Dropping stops at the latest at a kept code point. *)
Lemma dropwhile_app_keep (f : N -> bool) (a : str) (c : N) (r : str) :
  f c = false -> exists a', dropwhile f (a ++ c :: r) = a' ++ c :: r.
Proof.
  intros Hc. induction a as [|x a IH]; simpl.
  - rewrite Hc. now exists [].
  - destruct (f x); [assumption|]. now exists (x :: a).
Qed.

Lemma dropwhile_snoc_keep (f : N -> bool) (a : str) (c : N) :
  f c = false -> dropwhile f (a ++ [c]) = dropwhile f a ++ [c].
Proof.
  intros Hc. induction a as [|x a IH]; simpl.
  - now rewrite Hc.
  - destruct (f x); [assumption | reflexivity].
Qed.

Lemma rstrip_idem (s : str) : rstrip (rstrip s) = rstrip s.
Proof. unfold rstrip. now rewrite rev_involutive, dropwhile_idem. Qed.

Lemma rstrip_cons_keep (c : N) (r : str) :
  isspace c = false -> rstrip (c :: r) = c :: rstrip r.
Proof.
  intros Hc. unfold rstrip. simpl rev.
  rewrite dropwhile_snoc_keep by assumption.
  now rewrite rev_app_distr.
Qed.

Lemma lstrip_rstrip_lstrip (s : str) :
  lstrip (rstrip (lstrip s)) = rstrip (lstrip s).
Proof.
  unfold lstrip at 2 3.
  destruct (dropwhile_head isspace s) as [->|(c & r & -> & Hc)]; [reflexivity|].
  rewrite rstrip_cons_keep by assumption.
  unfold lstrip. now apply dropwhile_stop.
Qed.

Lemma strip_idem (s : str) : strip (strip s) = strip s.
Proof.
  unfold strip. now rewrite lstrip_rstrip_lstrip, rstrip_idem.
Qed.

(** A substring that neither starts nor ends with whitespace survives
    [strip]. *)
Lemma contains_strip (p s : str) (x y : N) (p1 p2 : str) :
  p = x :: p1 -> p = p2 ++ [y] ->
  isspace x = false -> isspace y = false ->
  contains p s = true -> contains p (strip s) = true.
Proof.
  intros Hx Hy Sx Sy Hc.
  apply contains_spec in Hc as (a & b & ->).
  apply contains_spec. unfold strip, lstrip.
  destruct (dropwhile_app_keep isspace a x (p1 ++ b) Sx) as [a' Ha'].
  assert (E1 : a ++ p ++ b = a ++ x :: p1 ++ b) by (now rewrite Hx).
  rewrite E1, Ha'. unfold rstrip.
  assert (E2 : rev (a' ++ x :: p1 ++ b) = rev b ++ y :: rev p2 ++ rev a').
  { change (x :: p1 ++ b) with ((x :: p1) ++ b). rewrite <- Hx, Hy.
    rewrite !rev_app_distr. simpl. now rewrite <- !app_assoc. }
  rewrite E2.
  destruct (dropwhile_app_keep isspace (rev b) y (rev p2 ++ rev a') Sy)
    as [b' Hb'].
  rewrite Hb'. exists a', (rev b').
  rewrite rev_app_distr. simpl rev. rewrite rev_app_distr, !rev_involutive.
  rewrite <- !app_assoc. simpl. rewrite Hy. now rewrite <- !app_assoc.
Qed.

Ltac bool_arith :=
  repeat (match goal with
          | |- context [?a <=? ?b] => destruct (N.leb_spec a b)
          | |- context [?a =? ?b] => destruct (N.eqb_spec a b)
          end; try lia);
  cbn [andb orb]; try reflexivity; try lia.

Lemma lower_cp_cases (c : N) :
  (65 <= c <= 90 /\ lower_cp c = c + 32)
  \/ ((c < 65 \/ 90 < c) /\ lower_cp c = c).
Proof.
  unfold lower_cp.
  destruct (N.leb_spec 65 c), (N.leb_spec c 90); cbn [andb]; [left|right..];
    (split; [lia | reflexivity]).
Qed.

Lemma lower_cp_idem (c : N) : lower_cp (lower_cp c) = lower_cp c.
Proof.
  destruct (lower_cp_cases c) as [[Hc ->]|[Hc ->]].
  - destruct (lower_cp_cases (c + 32)) as [[Hc' _]|[_ ->]]; [lia | reflexivity].
  - destruct (lower_cp_cases c) as [[Hc' _]|[_ ->]]; [lia | reflexivity].
Qed.

Lemma isspace_letter (c : N) : 33 <= c <= 132 -> isspace c = false.
Proof. intros Hc. unfold isspace. bool_arith. Qed.

Lemma isspace_lower_cp (c : N) : isspace (lower_cp c) = isspace c.
Proof.
  destruct (lower_cp_cases c) as [[Hc ->]|[Hc ->]]; [|reflexivity].
  rewrite !isspace_letter by lia. reflexivity.
Qed.

Lemma ascii_lower_idem (s : str) : ascii_lower (ascii_lower s) = ascii_lower s.
Proof.
  unfold ascii_lower. rewrite map_map. apply map_ext. apply lower_cp_idem.
Qed.

Lemma dropwhile_map (f : N -> bool) (g : N -> N) (s : str) :
  (forall c, f (g c) = f c) ->
  dropwhile f (map g s) = map g (dropwhile f s).
Proof.
  intros H. induction s as [|c s IH]; simpl; [reflexivity|].
  rewrite H. destruct (f c); [assumption | reflexivity].
Qed.

Lemma ascii_lower_strip (s : str) :
  ascii_lower (strip s) = strip (ascii_lower s).
Proof.
  unfold strip, rstrip, lstrip, ascii_lower.
  rewrite (dropwhile_map isspace lower_cp s isspace_lower_cp).
  rewrite <- map_rev.
  rewrite (dropwhile_map isspace lower_cp _ isspace_lower_cp).
  now rewrite <- map_rev.
Qed.

(** ** The tables of the instance *)

Lemma nodupb_NoDup (l : list str) : nodupb l = true -> NoDup l.
Proof.
  induction l as [|x l IH]; simpl; intros H; [constructor|].
  apply andb_true_iff in H as [Hx Hl]. constructor; [|auto].
  intros Hin. apply negb_true_iff in Hx.
  assert (Ht : existsb (str_eqb x) l = true).
  { apply existsb_exists. exists x. split; [assumption | apply str_eqb_refl]. }
  congruence.
Qed.

Lemma voice_categories_distinct : NoDup (keys voice_service.(query_patterns)).
Proof. apply nodupb_NoDup. vm_compute. reflexivity. Qed.

Lemma voice_keywords_distinct category keywords :
  In (category, keywords) voice_service.(query_patterns) -> NoDup keywords.
Proof.
  intros Hin. apply nodupb_NoDup.
  assert (H : forallb (fun item : str * list str => nodupb (snd item))
                      voice_service.(query_patterns) = true)
    by (vm_compute; reflexivity).
  rewrite forallb_forall in H. apply (H (category, keywords) Hin).
Qed.

Lemma voice_categories_closed :
  keys voice_service.(query_patterns) ++ [u "greeting"; u "default"]
  = Categories.
Proof. vm_compute. reflexivity. Qed.

Lemma voice_has_response category :
  In category Categories ->
  exists response,
    get voice_service.(responses) category = Some response /\ response <> [].
Proof.
  intros Hin.
  assert (H : forallb (has_response voice_service) Categories = true)
    by (vm_compute; reflexivity).
  rewrite forallb_forall in H. specialize (H category Hin).
  unfold has_response in H.
  destruct (get (responses voice_service) category) as [[|c r]|];
    try discriminate.
  exists (c :: r). split; [reflexivity | discriminate].
Qed.

Lemma is_greeting_existsb (q : str) :
  _is_greeting q = existsb (fun g => contains g q) greeting_substrings.
Proof.
  unfold _is_greeting, any.
  change (map u ["hello"; "hi"; "hey"; "good morning"; "good afternoon";
                 "good evening"; "namaste"; "greetings"; "howdy"])
    with greeting_substrings.
  induction greeting_substrings as [|g gs IH]; simpl; [reflexivity|].
  now rewrite IH.
Qed.

Lemma is_greeting_true (q : str) :
  _is_greeting q = true
  <-> exists g, In g greeting_substrings /\ contains g q = true.
Proof. rewrite is_greeting_existsb. apply existsb_exists. Qed.

Lemma is_greeting_false (q : str) :
  _is_greeting q = false
  <-> forall g, In g greeting_substrings -> contains g q = false.
Proof.
  rewrite is_greeting_existsb. split.
  - intros H g Hg. destruct (contains g q) eqn:E; [|reflexivity].
    assert (Ht : existsb (fun g => contains g q) greeting_substrings = true)
      by (apply existsb_exists; eauto).
    congruence.
  - intros H. destruct (existsb _ _) eqn:E; [|reflexivity].
    apply existsb_exists in E as (g & Hg & Hc). rewrite (H g Hg) in Hc.
    discriminate.
Qed.

(** ** [classify] and [process_query] *)

Section Decision.
Variable str_lower : str -> str.
Variable self : VoiceAssistantService.
Hypothesis categories_distinct : NoDup (keys self.(query_patterns)).

Lemma process_query_classify query :
  process_query str_lower self query
  = (category <- classify str_lower self query ;;
     getitem self.(responses) category).
Proof.
  unfold process_query, classify.
  destruct (_is_greeting (normalize str_lower query)); [reflexivity|].
  destruct (score_loop self (normalize str_lower query)); reflexivity.
Qed.

Lemma classify_greeting query :
  _is_greeting (normalize str_lower query) = true ->
  classify str_lower self query = Ok (u "greeting").
Proof. intros H. unfold classify. now rewrite H. Qed.

Lemma classify_default query :
  _is_greeting (normalize str_lower query) = false ->
  scores self.(query_patterns) (normalize str_lower query) = [] ->
  classify str_lower self query = Ok (u "default").
Proof.
  intros Hg Hs. unfold classify.
  rewrite Hg, score_loop_scores, Hs by assumption. reflexivity.
Qed.

Lemma classify_best query :
  _is_greeting (normalize str_lower query) = false ->
  scores self.(query_patterns) (normalize str_lower query) <> [] ->
  classify str_lower self query
  = max (keys (scores self.(query_patterns) (normalize str_lower query)))
        (get (scores self.(query_patterns) (normalize str_lower query))).
Proof.
  intros Hg Hs. unfold classify.
  rewrite Hg, score_loop_scores by assumption.
  destruct (scores _ _); [congruence | reflexivity].
Qed.

(** The result of [classify] is ["greeting"], ["default"] or a category
    of the table. *)
Lemma classify_total query :
  exists category,
    classify str_lower self query = Ok category
    /\ In category
          (keys self.(query_patterns) ++ [u "greeting"; u "default"]).
Proof.
  destruct (_is_greeting (normalize str_lower query)) eqn:Hg.
  - exists (u "greeting"). split; [now apply classify_greeting|].
    apply in_or_app. right. now left.
  - destruct (scores self.(query_patterns) (normalize str_lower query))
      as [|item rest] eqn:Hs.
    + exists (u "default"). split; [now apply classify_default|].
      apply in_or_app. right. right. now left.
    + assert (Hne : scores self.(query_patterns)
                           (normalize str_lower query) <> [])
        by (rewrite Hs; discriminate).
      destruct (best_category_first_max _ _ categories_distinct Hne)
        as (before & c & kws & after & Hp & Hm & _).
      exists c. split.
      * rewrite classify_best by assumption. exact Hm.
      * apply in_or_app. left. rewrite Hp, keys_app.
        apply in_or_app. right. now left.
Qed.

(** A category that strictly beats every other one is selected. *)
Lemma classify_strict_max query category keywords :
  _is_greeting (normalize str_lower query) = false ->
  In (category, keywords) self.(query_patterns) ->
  0 < match_count keywords (normalize str_lower query) ->
  (forall category' keywords',
      In (category', keywords') self.(query_patterns) ->
      category' <> category ->
      match_count keywords' (normalize str_lower query)
      < match_count keywords (normalize str_lower query)) ->
  classify str_lower self query = Ok category.
Proof.
  intros Hg Hin Hpos Hmax.
  set (q := normalize str_lower query) in *.
  assert (Hne : scores self.(query_patterns) q <> []).
  { intros Hs. rewrite scores_nil_iff in Hs.
    specialize (Hs _ _ Hin). lia. }
  destruct (best_category_first_max _ _ categories_distinct Hne)
    as (before & c & kws & after & Hp & Hm & _ & Hb & Ha).
  rewrite classify_best by assumption. fold q. rewrite Hm. f_equal.
  destruct (str_eq_dec c category) as [Heq|Hneq]; [assumption|exfalso].
  assert (Hc : In (c, kws) self.(query_patterns))
    by (rewrite Hp; apply in_or_app; right; now left).
  specialize (Hmax c kws Hc Hneq).
  rewrite Hp in Hin. apply in_app_or in Hin as [Hin|[Hin|Hin]].
  - specialize (Hb _ _ Hin). lia.
  - congruence.
  - specialize (Ha _ _ Hin). lia.
Qed.

End Decision.

Lemma normalize_ascii str_lower query :
  (forall s, is_ascii s = true -> str_lower s = ascii_lower s) ->
  is_ascii query = true ->
  normalize str_lower query = normalize ascii_lower query.
Proof. intros H Hq. unfold normalize. now rewrite H. Qed.

Lemma classify_ascii str_lower self query :
  (forall s, is_ascii s = true -> str_lower s = ascii_lower s) ->
  is_ascii query = true ->
  classify str_lower self query = classify ascii_lower self query.
Proof.
  intros H Hq. unfold classify. now rewrite (normalize_ascii _ _ H Hq).
Qed.

Lemma process_query_ascii str_lower self query :
  (forall s, is_ascii s = true -> str_lower s = ascii_lower s) ->
  is_ascii query = true ->
  process_query str_lower self query = process_query ascii_lower self query.
Proof.
  intros H Hq. unfold process_query. now rewrite (normalize_ascii _ _ H Hq).
Qed.

(** ** Properties of the responder *)

Ltac each_item H :=
  vm_compute in H;
  repeat (destruct H as [H|H]; [injection H as <- <-|]);
  [..|contradiction].

Ltac by_ascii H :=
  first [ rewrite (classify_ascii _ _ _ H) by (vm_compute; reflexivity)
        | rewrite (process_query_ascii _ _ _ H) by (vm_compute; reflexivity)
        | rewrite (normalize_ascii _ _ H) by (vm_compute; reflexivity) ];
  vm_compute; reflexivity.

Lemma voice_strict_max_positive (q : str) category keywords :
  In (category, keywords) voice_service.(query_patterns) ->
  (forall category' keywords',
      In (category', keywords') voice_service.(query_patterns) ->
      category' <> category ->
      match_count keywords' q < match_count keywords q) ->
  0 < match_count keywords q.
Proof.
  intros Hin Hmax.
  destruct (str_eq_dec category (u "weather")) as [->|Hne].
  - destruct (in_keys_item voice_service.(query_patterns) (u "prices"))
      as [kws Hp]; [right; left; reflexivity|].
    specialize (Hmax _ _ Hp). assert (u "prices" <> u "weather")
      by (vm_compute; discriminate).
    specialize (Hmax H). lia.
  - destruct (in_keys_item voice_service.(query_patterns) (u "weather"))
      as [kws Hp]; [left; reflexivity|].
    specialize (Hmax _ _ Hp). assert (u "weather" <> category) by congruence.
    specialize (Hmax H). lia.
Qed.

Lemma is_ascii_dropwhile (f : N -> bool) (s : str) :
  is_ascii s = true -> is_ascii (dropwhile f s) = true.
Proof.
  induction s as [|c s IH]; simpl; [auto|].
  intros H. destruct (f c); [|exact H].
  apply andb_true_iff in H as [_ H]. auto.
Qed.

Lemma is_ascii_rev (s : str) : is_ascii s = true -> is_ascii (rev s) = true.
Proof.
  unfold is_ascii. rewrite !forallb_forall. intros H c Hc.
  apply H. now apply in_rev.
Qed.

Lemma is_ascii_strip (s : str) : is_ascii s = true -> is_ascii (strip s) = true.
Proof.
  intros H. unfold strip, rstrip, lstrip.
  now apply is_ascii_rev, is_ascii_dropwhile, is_ascii_rev, is_ascii_dropwhile.
Qed.

Lemma is_ascii_lower (s : str) :
  is_ascii s = true -> is_ascii (ascii_lower s) = true.
Proof.
  unfold is_ascii, ascii_lower. rewrite !forallb_forall. intros H c Hc.
  apply in_map_iff in Hc as (c0 & <- & Hc0). specialize (H c0 Hc0).
  apply N.ltb_lt in H. apply N.ltb_lt.
  destruct (lower_cp_cases c0) as [[Hr ->]|[_ ->]]; lia.
Qed.

Lemma normalize_invariant (str_lower : str -> str) (query : str) :
  (forall s, str_lower (str_lower s) = str_lower s) ->
  (forall s, str_lower (strip s) = strip (str_lower s)) ->
  normalize str_lower (str_lower (strip query)) = normalize str_lower query.
Proof.
  intros Hidem Hcomm. unfold normalize.
  now rewrite Hidem, Hcomm, strip_idem.
Qed.

Section Properties.

(** [str.lower] of the runtime; on text of the Basic Latin block it is
    [ascii_lower]. *)
Variable str_lower : str -> str.
Hypothesis str_lower_ascii :
  forall s, is_ascii s = true -> str_lower s = ascii_lower s.

(** C1. For a query whose normalized form contains no greeting substring,
    the count stored for each category of the table is the number of
    distinct triggers of that category occurring in the normalized query
    (categories with count zero are not stored), and a category whose
    count is strictly higher than every other category's is the one
    [classify] returns; ["what is the weather forecast today"] is
    classified as ["weather"]. *)
Theorem keyword_scoring_selects_strict_max :
  (forall query,
      _is_greeting (normalize str_lower query) = false ->
      (forall category keywords,
          In (category, keywords) (items voice_service.(query_patterns)) ->
          match_count keywords (normalize str_lower query)
          = distinct_triggers_present keywords (normalize str_lower query)
          /\ get (score_loop voice_service (normalize str_lower query))
                 category
             = if 0 <? match_count keywords (normalize str_lower query)
               then Some (match_count keywords (normalize str_lower query))
               else None)
      /\ (forall category keywords,
             In (category, keywords)
                (items voice_service.(query_patterns)) ->
             (forall category' keywords',
                 In (category', keywords')
                    (items voice_service.(query_patterns)) ->
                 category' <> category ->
                 match_count keywords' (normalize str_lower query)
                 < match_count keywords (normalize str_lower query)) ->
             classify str_lower voice_service query = Ok category))
  /\ classify str_lower voice_service
              (u "what is the weather forecast today")
     = Ok (u "weather").
Proof.
  split.
  - intros query Hg. split.
    + intros category keywords Hin. unfold items in Hin. split.
      * apply match_count_distinct.
        now apply (voice_keywords_distinct category).
      * rewrite score_loop_scores by apply voice_categories_distinct.
        now apply get_scores; [apply voice_categories_distinct|].
    + intros category keywords Hin Hmax. unfold items in *.
      apply (classify_strict_max _ _ voice_categories_distinct
                                 query category keywords); auto.
      now apply (voice_strict_max_positive _ category).
  - by_ascii str_lower_ascii.
Qed.

(** C2. A query whose normalized form contains one of the greeting
    substrings is classified as ["greeting"] and answered with the greeting
    response, whatever keyword triggers it also contains;
    ["hello, what fertilizer do I need"] is a greeting although it scores
    for ["fertilizer"]. *)
Theorem greeting_takes_precedence :
  (forall query greeting,
      In greeting
         (map u ["hello"; "hi"; "hey"; "good morning"; "good afternoon";
                 "good evening"; "namaste"; "greetings"; "howdy"]) ->
      contains greeting (normalize str_lower query) = true ->
      classify str_lower voice_service query = Ok (u "greeting")
      /\ process_query str_lower voice_service query
         = getitem voice_service.(responses) (u "greeting"))
  /\ classify str_lower voice_service
              (u "hello, what fertilizer do I need")
     = Ok (u "greeting")
  /\ score_loop voice_service
                (normalize str_lower (u "hello, what fertilizer do I need"))
     = [(u "fertilizer", 1)].
Proof.
  split; [|split].
  - intros query greeting Hin Hc.
    assert (Hg : _is_greeting (normalize str_lower query) = true)
      by (apply is_greeting_true; exists greeting; auto).
    split.
    + now apply classify_greeting.
    + rewrite process_query_classify, classify_greeting by assumption.
      reflexivity.
  - by_ascii str_lower_ascii.
  - by_ascii str_lower_ascii.
Qed.

(** C3. A query whose normalized form contains no greeting substring and
    no trigger of any category is classified as ["default"]; so are
    ["asdkjasd"] and the empty string. *)
Theorem no_match_yields_default :
  (forall query,
      (forall greeting,
          In greeting greeting_substrings ->
          contains greeting (normalize str_lower query) = false) ->
      (forall category keywords keyword,
          In (category, keywords) (items voice_service.(query_patterns)) ->
          In keyword keywords ->
          contains keyword (normalize str_lower query) = false) ->
      classify str_lower voice_service query = Ok (u "default")
      /\ process_query str_lower voice_service query
         = getitem voice_service.(responses) (u "default"))
  /\ classify str_lower voice_service (u "asdkjasd") = Ok (u "default")
  /\ classify str_lower voice_service (u "") = Ok (u "default").
Proof.
  split; [|split].
  - intros query Hgreet Hkw.
    assert (Hg : _is_greeting (normalize str_lower query) = false)
      by (now apply is_greeting_false).
    assert (Hs : scores voice_service.(query_patterns)
                        (normalize str_lower query) = []).
    { apply scores_nil_iff. intros c kws Hin. apply match_count_zero.
      intros k Hk. now apply (Hkw c kws). }
    assert (Hc : classify str_lower voice_service query = Ok (u "default"))
      by (apply classify_default;
          [apply voice_categories_distinct | assumption..]).
    split; [assumption|].
    rewrite process_query_classify, Hc. reflexivity.
  - by_ascii str_lower_ascii.
  - by_ascii str_lower_ascii.
Qed.

(** C4. [process_query] is total: every query is classified into one of
    the ten categories and answered with that category's non-empty
    response; no [KeyError], [ValueError] or [TypeError] is raised, and
    every category has a non-empty entry in [responses]. *)
Theorem process_query_total :
  (forall query,
      exists category response,
        classify str_lower voice_service query = Ok category
        /\ In category Categories
        /\ process_query str_lower voice_service query = Ok response
        /\ get voice_service.(responses) category = Some response
        /\ response <> [])
  /\ (forall category,
         In category Categories ->
         exists response,
           get voice_service.(responses) category = Some response
           /\ response <> []).
Proof.
  split; [|apply voice_has_response].
  intros query.
  destruct (classify_total str_lower _ voice_categories_distinct query)
    as (category & Hc & Hin).
  rewrite voice_categories_closed in Hin.
  destruct (voice_has_response category Hin) as (response & Hr & Hne).
  exists category, response. repeat split; auto.
  rewrite process_query_classify, Hc. unfold bind, getitem.
  now rewrite Hr.
Qed.

(** C7. Classifying a query and classifying its lowercased, stripped
    form give the same result: for every query when [str.lower] is
    idempotent and commutes with [strip] (both hold of the runtime's), and
    for every query of the Basic Latin block without further assumption;
    ["  WEATHER Today  "] is classified like ["weather today"], as
    ["weather"]. *)
Theorem classify_normalization_invariant :
  ((forall s, str_lower (str_lower s) = str_lower s) ->
   (forall s, str_lower (strip s) = strip (str_lower s)) ->
   forall self query,
     classify str_lower self query
     = classify str_lower self (str_lower (strip query)))
  /\ (forall self query,
         is_ascii query = true ->
         classify str_lower self query
         = classify str_lower self (str_lower (strip query)))
  /\ classify str_lower voice_service (u "  WEATHER Today  ")
     = classify str_lower voice_service (u "weather today")
  /\ classify str_lower voice_service (u "weather today")
     = Ok (u "weather").
Proof.
  split; [|split; [|split]].
  - intros Hidem Hcomm self query.
    unfold classify. now rewrite normalize_invariant.
  - intros self query Hq.
    assert (Hs : is_ascii (strip query) = true) by now apply is_ascii_strip.
    rewrite (str_lower_ascii _ Hs).
    rewrite !(classify_ascii _ _ _ str_lower_ascii)
      by (assumption || now apply is_ascii_lower).
    unfold classify.
    now rewrite (normalize_invariant ascii_lower query
                                     ascii_lower_idem ascii_lower_strip).
  - rewrite !(classify_ascii _ _ _ str_lower_ascii)
      by (vm_compute; reflexivity).
    vm_compute. reflexivity.
  - by_ascii str_lower_ascii.
Qed.

(** C9. Every query whose lowercased form contains ["hi"] anywhere is
    classified as ["greeting"], whatever triggers it contains;
    ["which fertilizer for paddy"] (which scores for ["fertilizer"]) and
    ["machine"] are greetings. *)
Theorem hi_substring_is_greeting :
  (forall query,
      contains (u "hi") (str_lower query) = true ->
      classify str_lower voice_service query = Ok (u "greeting")
      /\ process_query str_lower voice_service query
         = getitem voice_service.(responses) (u "greeting"))
  /\ classify str_lower voice_service (u "which fertilizer for paddy")
     = Ok (u "greeting")
  /\ score_loop voice_service
                (normalize str_lower (u "which fertilizer for paddy"))
     = [(u "fertilizer", 1)]
  /\ classify str_lower voice_service (u "machine") = Ok (u "greeting").
Proof.
  split; [|repeat split].
  - intros query Hc.
    assert (Hg : _is_greeting (normalize str_lower query) = true).
    { apply is_greeting_true. exists (u "hi"). split.
      - right. left. reflexivity.
      - unfold normalize.
        apply (contains_strip (u "hi") _ 104 105 [105] [104]);
          auto; reflexivity. }
    split.
    + now apply classify_greeting.
    + rewrite process_query_classify, classify_greeting by assumption.
      reflexivity.
  - by_ascii str_lower_ascii.
  - by_ascii str_lower_ascii.
  - by_ascii str_lower_ascii.
Qed.

(** C10. ["pest"] is a trigger of both ["disease"] and ["pest"], ["soil"]
    of both ["fertilizer"] and ["soil"]; the table's categories are, in
    order, weather, prices, disease, fertilizer, cultivation, pest, soil,
    season; among the categories with the highest count the first in that
    order is selected; so ["pest"] is classified as ["disease"] and
    ["soil"] as ["fertilizer"]. *)
Theorem ties_resolved_by_table_order :
  (exists disease_keywords pest_keywords,
      In (u "disease", disease_keywords) voice_service.(query_patterns)
      /\ In (u "pest", pest_keywords) voice_service.(query_patterns)
      /\ In (u "pest") disease_keywords /\ In (u "pest") pest_keywords)
  /\ (exists fertilizer_keywords soil_keywords,
         In (u "fertilizer", fertilizer_keywords)
            voice_service.(query_patterns)
         /\ In (u "soil", soil_keywords) voice_service.(query_patterns)
         /\ In (u "soil") fertilizer_keywords
         /\ In (u "soil") soil_keywords)
  /\ keys voice_service.(query_patterns)
     = map u ["weather"; "prices"; "disease"; "fertilizer"; "cultivation";
              "pest"; "soil"; "season"]
  /\ (forall query,
         _is_greeting (normalize str_lower query) = false ->
         score_loop voice_service (normalize str_lower query) <> [] ->
         exists before category keywords after,
           items voice_service.(query_patterns)
           = before ++ (category, keywords) :: after
           /\ classify str_lower voice_service query = Ok category
           /\ (forall category' keywords',
                  In (category', keywords') before ->
                  match_count keywords' (normalize str_lower query)
                  < match_count keywords (normalize str_lower query))
           /\ (forall category' keywords',
                  In (category', keywords') after ->
                  match_count keywords' (normalize str_lower query)
                  <= match_count keywords (normalize str_lower query)))
  /\ classify str_lower voice_service (u "pest") = Ok (u "disease")
  /\ classify str_lower voice_service (u "soil") = Ok (u "fertilizer").
Proof.
  split; [|split; [|split; [|split; [|split]]]].
  - eexists _, _. split; [right; right; left; reflexivity|].
    split; [do 5 right; left; reflexivity|].
    split; vm_compute; tauto.
  - eexists _, _. split; [do 3 right; left; reflexivity|].
    split; [do 6 right; left; reflexivity|].
    split; vm_compute; tauto.
  - vm_compute. reflexivity.
  - intros query Hg Hs.
    rewrite score_loop_scores in Hs by apply voice_categories_distinct.
    destruct (best_category_first_max _ _ voice_categories_distinct Hs)
      as (before & c & kws & after & Hp & Hm & _ & Hb & Ha).
    exists before, c, kws, after. repeat split; auto.
    rewrite classify_best; auto. apply voice_categories_distinct.
  - by_ascii str_lower_ascii.
  - by_ascii str_lower_ascii.
Qed.

End Properties.

(** C8. [get_help_response] takes no input besides the instance, which it
    does not read: it returns the same dict on every call, with the keys
    ['features'] (five strings) and ['sample_queries'] (six strings). *)
Theorem help_response_fixed :
  (forall self self', get_help_response self = get_help_response self')
  /\ (forall self,
         keys (get_help_response self) = [u "features"; u "sample_queries"]
         /\ exists features sample_queries,
             get (get_help_response self) (u "features") = Some features
             /\ get (get_help_response self) (u "sample_queries")
                = Some sample_queries
             /\ List.length features = 5%nat
             /\ List.length sample_queries = 6%nat
             /\ Forall (fun s : str => s <> []) (features ++ sample_queries)).
Proof.
  split; [reflexivity|].
  intros self. split; [vm_compute; reflexivity|].
  eexists _, _. split; [vm_compute; reflexivity|].
  split; [vm_compute; reflexivity|].
  split; [reflexivity|]. split; [reflexivity|].
  vm_compute. repeat constructor; discriminate.
Qed.

(** ** The properties at concrete queries

    Each lemma below instantiates a property above with [ascii_lower] for
    the runtime's [str.lower] and evaluates its premises on a query. *)

Ltac each_member H :=
  vm_compute in H;
  repeat (destruct H as [H|H]; [subst|]);
  [..|contradiction].

Lemma ascii_lower_on_ascii :
  forall s, is_ascii s = true -> ascii_lower s = ascii_lower s.
Proof. reflexivity. Qed.

Lemma keyword_scoring_selects_strict_max_witness :
  classify ascii_lower voice_service (u "show me tomato prices")
  = Ok (u "prices")
  /\ classify ascii_lower voice_service
              (u "what is the weather forecast today")
     = Ok (u "weather").
Proof.
  destruct (keyword_scoring_selects_strict_max
              ascii_lower ascii_lower_on_ascii) as [Hgen Hex].
  split; [|exact Hex].
  destruct (Hgen (u "show me tomato prices")) as [_ Hsel];
    [vm_compute; reflexivity|].
  eapply Hsel.
  - right; left; reflexivity.
  - intros c' k' Hin Hne.
    each_item Hin;
      first [ vm_compute; reflexivity | exfalso; apply Hne; reflexivity ].
Defined.

Lemma greeting_takes_precedence_witness :
  classify ascii_lower voice_service (u "hello, what fertilizer do I need")
  = Ok (u "greeting")
  /\ process_query ascii_lower voice_service
                   (u "hello, what fertilizer do I need")
     = getitem voice_service.(responses) (u "greeting").
Proof.
  destruct (greeting_takes_precedence ascii_lower ascii_lower_on_ascii)
    as [Hgen _].
  apply (Hgen (u "hello, what fertilizer do I need") (u "hello")).
  - left. reflexivity.
  - vm_compute. reflexivity.
Defined.

Lemma no_match_yields_default_witness :
  classify ascii_lower voice_service (u "asdkjasd") = Ok (u "default")
  /\ process_query ascii_lower voice_service (u "asdkjasd")
     = getitem voice_service.(responses) (u "default").
Proof.
  destruct (no_match_yields_default ascii_lower ascii_lower_on_ascii)
    as [Hgen _].
  apply (Hgen (u "asdkjasd")).
  - intros g Hg. each_member Hg; vm_compute; reflexivity.
  - intros c kws k Hin Hk.
    each_item Hin; each_member Hk; vm_compute; reflexivity.
Defined.

Lemma classify_normalization_invariant_witness :
  classify ascii_lower voice_service (u "  Crop PRICE ")
  = classify ascii_lower voice_service
             (ascii_lower (strip (u "  Crop PRICE ")))
  /\ classify ascii_lower voice_service (u " Sunny? ")
     = classify ascii_lower voice_service (ascii_lower (strip (u " Sunny? ")))
  /\ classify ascii_lower voice_service (u "  WEATHER Today  ")
     = classify ascii_lower voice_service (u "weather today").
Proof.
  destruct (classify_normalization_invariant
              ascii_lower ascii_lower_on_ascii) as (Hgen & Hascii & Hex & _).
  split; [|split].
  - apply Hgen; [apply ascii_lower_idem | apply ascii_lower_strip].
  - apply Hascii. vm_compute. reflexivity.
  - exact Hex.
Defined.

Lemma hi_substring_is_greeting_witness :
  classify ascii_lower voice_service (u "Which fertilizer for paddy")
  = Ok (u "greeting")
  /\ process_query ascii_lower voice_service (u "Which fertilizer for paddy")
     = getitem voice_service.(responses) (u "greeting").
Proof.
  destruct (hi_substring_is_greeting ascii_lower ascii_lower_on_ascii)
    as [Hgen _].
  apply (Hgen (u "Which fertilizer for paddy")).
  vm_compute. reflexivity.
Defined.

Lemma ties_resolved_by_table_order_witness :
  exists before category keywords after,
    items voice_service.(query_patterns)
    = before ++ (category, keywords) :: after
    /\ classify ascii_lower voice_service (u "soil price") = Ok category
    /\ (forall category' keywords',
           In (category', keywords') before ->
           match_count keywords' (normalize ascii_lower (u "soil price"))
           < match_count keywords (normalize ascii_lower (u "soil price")))
    /\ (forall category' keywords',
           In (category', keywords') after ->
           match_count keywords' (normalize ascii_lower (u "soil price"))
           <= match_count keywords (normalize ascii_lower (u "soil price"))).
Proof.
  destruct (ties_resolved_by_table_order ascii_lower ascii_lower_on_ascii)
    as (_ & _ & _ & Hgen & _).
  apply (Hgen (u "soil price")).
  - vm_compute. reflexivity.
  - vm_compute. discriminate.
Defined.

(** ** Sample runs

    The sample queries of [get_help_response], and two queries showing that
    the later categories of a shared trigger are reachable. *)

Example sample_weather :
  classify ascii_lower voice_service (u "What is the weather like today?")
  = Ok (u "weather").
Proof. vm_compute. reflexivity. Qed.

Example sample_prices :
  classify ascii_lower voice_service (u "Show me tomato prices")
  = Ok (u "prices").
Proof. vm_compute. reflexivity. Qed.

Example sample_pest_reachable :
  classify ascii_lower voice_service (u "insect bug on pest trap")
  = Ok (u "pest").
Proof. vm_compute. reflexivity. Qed.

Example sample_soil_reachable :
  classify ascii_lower voice_service (u "clay or loam soil")
  = Ok (u "soil").
Proof. vm_compute. reflexivity. Qed.

Example sample_empty_response :
  exists response,
    process_query ascii_lower voice_service (u "") = Ok response
    /\ get voice_service.(responses) (u "default") = Some response.
Proof. eexists. split; vm_compute; reflexivity. Qed.

(** ** More about the responder *)

Lemma contains_length (p s : str) :
  contains p s = true -> (List.length p <= List.length s)%nat.
Proof.
  intros H. apply contains_spec in H as (a & b & ->).
  rewrite !length_app. lia.
Qed.

Lemma contains_trans (p s t : str) :
  contains p s = true -> contains s t = true -> contains p t = true.
Proof.
  intros H1 H2.
  apply contains_spec in H1 as (a & b & ->).
  apply contains_spec in H2 as (c & d & ->).
  apply contains_spec. exists (c ++ a), (b ++ d).
  now rewrite <- !app_assoc.
Qed.

Lemma filter_length_le {A} (f g : A -> bool) (l : list A) :
  (forall x, In x l -> f x = true -> g x = true) ->
  (List.length (filter f l) <= List.length (filter g l))%nat.
Proof.
  induction l as [|x l IH]; intros H; simpl; [lia|].
  assert (IH' := IH (fun y Hy => H y (or_intror Hy))).
  destruct (f x) eqn:Ef.
  - rewrite (H x (or_introl eq_refl) Ef). simpl. lia.
  - destruct (g x); simpl; lia.
Qed.

Lemma match_count_positive (keywords : list str) (q : str) :
  0 < match_count keywords q
  <-> exists k, In k keywords /\ contains k q = true.
Proof.
  split.
  - intros H. destruct (existsb (fun k => contains k q) keywords) eqn:E.
    + apply existsb_exists in E. exact E.
    + assert (Hz : match_count keywords q = 0).
      { apply match_count_zero. intros k Hk.
        destruct (contains k q) eqn:Ec; [|reflexivity].
        assert (existsb (fun k => contains k q) keywords = true)
          by (apply existsb_exists; eauto).
        congruence. }
      lia.
  - intros (k & Hk & Hc).
    destruct (N.eq_dec (match_count keywords q) 0) as [Hz|Hnz]; [|lia].
    rewrite match_count_zero in Hz. rewrite (Hz k Hk) in Hc. discriminate.
Qed.

(** The responses of the instance are pairwise distinct, and so are the
    ten categories. *)
Lemma voice_responses_distinct :
  NoDup (map snd voice_service.(responses))
  /\ keys voice_service.(responses) = Categories
  /\ NoDup Categories.
Proof.
  split; [|split].
  - apply nodupb_NoDup. vm_compute. reflexivity.
  - vm_compute. reflexivity.
  - apply nodupb_NoDup. vm_compute. reflexivity.
Qed.

Lemma get_injective {V} (d : dict V) (k1 k2 : str) (v : V) :
  NoDup (map snd d) ->
  get d k1 = Some v -> get d k2 = Some v -> k1 = k2.
Proof.
  induction d as [|[k' v'] d IH]; simpl; intros Hnd H1 H2; [discriminate|].
  apply NoDup_cons_iff in Hnd as [Hv Hnd].
  assert (Hin : forall k, get d k = Some v' -> False).
  { intros k Hk. apply Hv. clear -Hk.
    induction d as [|[k0 v0] d IH]; simpl in *; [discriminate|].
    destruct (str_eqb k0 k); [injection Hk as ->; now left | right; auto]. }
  destruct (str_eqb k' k1) eqn:E1, (str_eqb k' k2) eqn:E2.
  - apply str_eqb_eq in E1, E2. congruence.
  - injection H1 as <-. exfalso. eauto.
  - injection H2 as <-. exfalso. eauto.
  - eauto.
Qed.

Lemma table_category_not_special category :
  In category (keys voice_service.(query_patterns)) ->
  category <> u "greeting" /\ category <> u "default".
Proof.
  intros Hin. each_member Hin; split; discriminate.
Qed.

Lemma voice_triggers_long :
  (forall g, In g greeting_substrings -> (2 <= List.length g)%nat)
  /\ (forall category keywords k,
         In (category, keywords) voice_service.(query_patterns) ->
         In k keywords -> (2 <= List.length k)%nat).
Proof.
  split.
  - intros g Hg. each_member Hg; simpl; lia.
  - intros c kws k Hin Hk.
    assert (H : forallb (fun item : str * list str =>
                           forallb (fun k => (2 <=? List.length k)%nat)
                                   (snd item))
                        voice_service.(query_patterns) = true)
      by (vm_compute; reflexivity).
    rewrite forallb_forall in H. specialize (H _ Hin). simpl in H.
    rewrite forallb_forall in H. specialize (H _ Hk).
    now apply Nat.leb_le.
Qed.

Section Outputs.

Variable str_lower : str -> str.

(** The three ways a query is answered. *)
Lemma classify_cases query :
  (_is_greeting (normalize str_lower query) = true
   /\ classify str_lower voice_service query = Ok (u "greeting"))
  \/ (_is_greeting (normalize str_lower query) = false
      /\ scores voice_service.(query_patterns) (normalize str_lower query)
         = []
      /\ classify str_lower voice_service query = Ok (u "default"))
  \/ (_is_greeting (normalize str_lower query) = false
      /\ exists category keywords,
          In (category, keywords) voice_service.(query_patterns)
          /\ 0 < match_count keywords (normalize str_lower query)
          /\ classify str_lower voice_service query = Ok category).
Proof.
  destruct (_is_greeting (normalize str_lower query)) eqn:Hg.
  - left. split; [reflexivity | now apply classify_greeting].
  - right.
    destruct (scores voice_service.(query_patterns)
                     (normalize str_lower query)) as [|item rest] eqn:Hs.
    + left. repeat split.
      apply classify_default; auto using voice_categories_distinct.
    + right. split; [reflexivity|].
      assert (Hne : scores voice_service.(query_patterns)
                           (normalize str_lower query) <> [])
        by (rewrite Hs; discriminate).
      destruct (best_category_first_max _ _ voice_categories_distinct Hne)
        as (before & c & kws & after & Hp & Hm & Hpos & _).
      exists c, kws. repeat split; auto.
      * rewrite Hp. apply in_or_app. right. now left.
      * rewrite classify_best; auto using voice_categories_distinct.
Qed.

Lemma process_query_of_classify query category :
  classify str_lower voice_service query = Ok category ->
  process_query str_lower voice_service query
  = getitem voice_service.(responses) category.
Proof. intros H. now rewrite process_query_classify, H. Qed.

Lemma getitem_response_injective c1 c2 :
  In c1 Categories -> In c2 Categories ->
  getitem voice_service.(responses) c1 = getitem voice_service.(responses) c2 ->
  c1 = c2.
Proof.
  intros H1 H2 H.
  destruct (voice_has_response c1 H1) as (r1 & Hr1 & _).
  destruct (voice_has_response c2 H2) as (r2 & Hr2 & _).
  unfold getitem in H. rewrite Hr1, Hr2 in H. injection H as <-.
  eapply get_injective; eauto. apply voice_responses_distinct.
Qed.

Lemma classify_in_categories query category :
  classify str_lower voice_service query = Ok category ->
  In category Categories.
Proof.
  intros H.
  destruct (classify_total str_lower _ voice_categories_distinct query)
    as (c & Hc & Hin).
  rewrite voice_categories_closed in Hin. congruence.
Qed.

(** X1. A query whose normalized form is shorter than two code points gets
    the default response: no greeting and no trigger is that short. *)
Theorem short_query_gets_default query :
  (List.length (normalize str_lower query) < 2)%nat ->
  classify str_lower voice_service query = Ok (u "default")
  /\ process_query str_lower voice_service query
     = getitem voice_service.(responses) (u "default").
Proof.
  intros Hlen.
  assert (Hc : classify str_lower voice_service query = Ok (u "default")).
  { apply classify_default; [apply voice_categories_distinct | |].
    - apply is_greeting_false. intros g Hg.
      destruct (contains g (normalize str_lower query)) eqn:E; [|reflexivity].
      apply contains_length in E.
      assert (H2 := proj1 voice_triggers_long g Hg). lia.
    - apply scores_nil_iff. intros c kws Hin. apply match_count_zero.
      intros k Hk.
      destruct (contains k (normalize str_lower query)) eqn:E; [|reflexivity].
      apply contains_length in E.
      assert (H2 := proj2 voice_triggers_long c kws k Hin Hk). lia. }
  split; [assumption | now apply process_query_of_classify].
Qed.

(** X2. Wrapping a query in more text loses nothing: when the normalized
    form of [query] occurs inside that of [query'], a greeting stays a
    greeting, no category's count goes down, and if [query'] gets the
    default response so does [query]. *)
Theorem extending_query_is_monotone query query' :
  contains (normalize str_lower query) (normalize str_lower query') = true ->
  (_is_greeting (normalize str_lower query) = true ->
   classify str_lower voice_service query' = Ok (u "greeting"))
  /\ (forall category keywords,
         In (category, keywords) voice_service.(query_patterns) ->
         match_count keywords (normalize str_lower query)
         <= match_count keywords (normalize str_lower query'))
  /\ (classify str_lower voice_service query' = Ok (u "default") ->
      classify str_lower voice_service query = Ok (u "default")).
Proof.
  intros Hsub.
  assert (Hcount : forall keywords,
             match_count keywords (normalize str_lower query)
             <= match_count keywords (normalize str_lower query')).
  { intros kws. rewrite !match_count_length.
    assert (Hle : (List.length
                     (filter (fun k => contains k (normalize str_lower query))
                             kws)
                   <= List.length
                        (filter (fun k => contains k (normalize str_lower query'))
                                kws))%nat); [|lia].
    apply filter_length_le. intros k _ Hk. eapply contains_trans; eauto. }
  assert (Hgreet : _is_greeting (normalize str_lower query) = true ->
                   _is_greeting (normalize str_lower query') = true).
  { rewrite !is_greeting_true. intros (g & Hg & Hc). exists g.
    split; [assumption | eapply contains_trans; eauto]. }
  split; [|split].
  - intros Hg. apply classify_greeting. auto.
  - intros c kws _. apply Hcount.
  - intros Hd'.
    destruct (classify_cases query') as [[Hg' Hc']|[(Hg' & Hs' & _)|(_ & c & kws & Hin & _ & Hc')]].
    + rewrite Hc' in Hd'. discriminate.
    + apply classify_default; [apply voice_categories_distinct | |].
      * destruct (_is_greeting (normalize str_lower query)) eqn:E;
          [|reflexivity].
        rewrite (Hgreet eq_refl) in Hg'. discriminate.
      * apply scores_nil_iff. intros c kws Hin.
        rewrite scores_nil_iff in Hs'. specialize (Hs' c kws Hin).
        specialize (Hcount kws). lia.
    + rewrite Hc' in Hd'. injection Hd' as ->.
      apply in_item_keys, table_category_not_special in Hin. tauto.
Qed.

(** X3. The greeting response is returned exactly for the queries whose
    normalized form contains a greeting substring, and the default response
    exactly for those containing neither a greeting substring nor any
    trigger. *)
Theorem greeting_and_default_responses_exactly query :
  (process_query str_lower voice_service query
   = getitem voice_service.(responses) (u "greeting")
   <-> exists g, In g greeting_substrings
                 /\ contains g (normalize str_lower query) = true)
  /\ (process_query str_lower voice_service query
      = getitem voice_service.(responses) (u "default")
      <-> (forall g, In g greeting_substrings ->
                     contains g (normalize str_lower query) = false)
          /\ (forall category keywords k,
                 In (category, keywords) voice_service.(query_patterns) ->
                 In k keywords ->
                 contains k (normalize str_lower query) = false)).
Proof.
  assert (Hgr : In (u "greeting") Categories)
    by (do 8 right; left; reflexivity).
  assert (Hdf : In (u "default") Categories)
    by (do 9 right; left; reflexivity).
  rewrite <- is_greeting_true, <- is_greeting_false.
  destruct (classify_cases query)
    as [[Hg Hc]|[(Hg & Hs & Hc)|(Hg & c & kws & Hin & Hpos & Hc)]];
    rewrite (process_query_of_classify _ _ Hc), Hg.
  - split; [tauto|]. split; [|intros [? _]; discriminate].
    intros H. apply getitem_response_injective in H; auto. discriminate.
  - split.
    + split; [|discriminate].
      intros H. apply getitem_response_injective in H; auto. discriminate.
    + split; [|reflexivity]. intros _. split; [reflexivity|].
      intros c kws k Hin Hk. rewrite scores_nil_iff in Hs.
      specialize (Hs c kws Hin). rewrite match_count_zero in Hs. auto.
  - assert (Hcat := classify_in_categories _ _ Hc).
    destruct (table_category_not_special c (in_item_keys _ _ _ Hin))
      as [Hng Hnd].
    split.
    + split; [|discriminate].
      intros H. exfalso. apply Hng.
      apply getitem_response_injective; auto.
    + split.
      * intros H. exfalso. apply Hnd.
        apply getitem_response_injective; auto.
      * intros [_ H]. apply match_count_positive in Hpos as (k & Hk & Hck).
        rewrite (H c kws k Hin Hk) in Hck. discriminate.
Qed.

(** X4. The response tells the category: two queries get the same response
    exactly when they are classified alike. *)
Theorem response_identifies_category query query' :
  process_query str_lower voice_service query
  = process_query str_lower voice_service query'
  <-> classify str_lower voice_service query
      = classify str_lower voice_service query'.
Proof.
  destruct (classify_total str_lower _ voice_categories_distinct query)
    as (c & Hc & _).
  destruct (classify_total str_lower _ voice_categories_distinct query')
    as (c' & Hc' & _).
  rewrite (process_query_of_classify _ _ Hc),
          (process_query_of_classify _ _ Hc'), Hc, Hc'.
  split.
  - intros H. f_equal. apply getitem_response_injective; auto;
      eapply classify_in_categories; eauto.
  - intros [= ->]. reflexivity.
Qed.

(** X5. A topic is never answered without evidence: when a query is
    classified into a category of the keyword table, one of that category's
    keywords occurs in the normalized query and no greeting substring
    does. *)
Theorem topic_has_a_keyword_present query category :
  classify str_lower voice_service query = Ok category ->
  category <> u "greeting" ->
  category <> u "default" ->
  (exists keywords k,
      In (category, keywords) voice_service.(query_patterns)
      /\ In k keywords
      /\ contains k (normalize str_lower query) = true)
  /\ (forall g, In g greeting_substrings ->
                contains g (normalize str_lower query) = false).
Proof.
  intros Hc Hng Hnd.
  destruct (classify_cases query)
    as [[_ Hc']|[(_ & _ & Hc')|(Hg & c & kws & Hin & Hpos & Hc')]];
    rewrite Hc' in Hc; injection Hc as <-; try contradiction.
  split; [|now apply is_greeting_false].
  apply match_count_positive in Hpos as (k & Hk & Hck).
  now exists kws, k.
Qed.

End Outputs.

Lemma short_query_gets_default_witness :
  classify ascii_lower voice_service (u "  A ") = Ok (u "default")
  /\ process_query ascii_lower voice_service (u "  A ")
     = getitem voice_service.(responses) (u "default").
Proof.
  apply (short_query_gets_default ascii_lower (u "  A ")).
  vm_compute. lia.
Defined.

Lemma extending_query_is_monotone_witness :
  classify ascii_lower voice_service (u "Oh hey, any rain today?")
  = Ok (u "greeting")
  /\ match_count (map u ["weather"; "rain"])
                 (normalize ascii_lower (u "HEY "))
     <= match_count (map u ["weather"; "rain"])
                    (normalize ascii_lower (u "Oh hey, any rain today?")).
Proof.
  destruct (extending_query_is_monotone
              ascii_lower (u "HEY ") (u "Oh hey, any rain today?"))
    as (Hg & _ & _); [vm_compute; reflexivity|].
  split; [apply Hg; vm_compute; reflexivity | vm_compute; discriminate].
Defined.

Lemma topic_has_a_keyword_present_witness :
  exists keywords k,
    In (u "soil", keywords) voice_service.(query_patterns)
    /\ In k keywords
    /\ contains k (normalize ascii_lower (u "clay or loam soil")) = true.
Proof.
  apply (topic_has_a_keyword_present
           ascii_lower (u "clay or loam soil") (u "soil")).
  - vm_compute. reflexivity.
  - discriminate.
  - discriminate.
Defined.

(** ** The earlier version of the service *)

Lemma any_map {A} (f : A -> bool) (l : list A) :
  any (map f l) = existsb f l.
Proof.
  unfold any. induction l as [|x l IH]; simpl; [reflexivity|].
  now rewrite IH.
Qed.

Lemma existsb_contains_count (keywords : list str) (q : str) :
  existsb (fun k => contains k q) keywords = (0 <? match_count keywords q).
Proof.
  destruct (existsb (fun k => contains k q) keywords) eqn:E; symmetry.
  - apply N.ltb_lt, match_count_positive. now apply existsb_exists.
  - apply N.ltb_ge.
    destruct (N.eq_dec (match_count keywords q) 0) as [Hz|Hnz]; [lia|].
    assert (Hp : 0 < match_count keywords q) by lia.
    apply match_count_positive, existsb_exists in Hp. congruence.
Qed.

(** The loop returns at the first category with a positive count. *)
Lemma first_match_spec (self : VoiceAssistantService)
      (items : list (str * list str)) (q : str) :
  (Legacy.first_match self items q = None
   /\ forall c kws, In (c, kws) items -> match_count kws q = 0)
  \/ (exists before c kws after,
         items = before ++ (c, kws) :: after
         /\ Legacy.first_match self items q
            = Some (getitem self.(responses) c)
         /\ 0 < match_count kws q
         /\ forall c' kws', In (c', kws') before -> match_count kws' q = 0).
Proof.
  induction items as [|[c kws] rest IH]; simpl.
  - left. split; [reflexivity | intros ? ? []].
  - rewrite any_map, existsb_contains_count.
    destruct (0 <? match_count kws q) eqn:E.
    + right. exists [], c, kws, rest. repeat split.
      * now apply N.ltb_lt.
      * intros ? ? [].
    + apply N.ltb_ge in E.
      destruct IH as [[Hn Hz]|(before & c' & kws' & after & -> & Hf & Hp & Hb)].
      * left. split; [assumption|].
        intros c0 k0 [[= <- <-]|Hin]; [lia | eauto].
      * right. exists ((c, kws) :: before), c', kws', after. repeat split; auto.
        intros c0 k0 [[= <- <-]|Hin]; [lia | eauto].
Qed.


Lemma legacy_tables :
  NoDup (keys Legacy.voice_service.(query_patterns))
  /\ forall category,
      In category (keys Legacy.voice_service.(query_patterns)
                   ++ [u "greeting"; u "default"]) ->
      exists response,
        get Legacy.voice_service.(responses) category = Some response
        /\ response <> [].
Proof.
  split; [apply nodupb_NoDup; vm_compute; reflexivity|].
  intros category Hin.
  assert (H : forallb (has_response Legacy.voice_service)
                      (keys Legacy.voice_service.(query_patterns)
                       ++ [u "greeting"; u "default"]) = true)
    by (vm_compute; reflexivity).
  rewrite forallb_forall in H. specialize (H category Hin).
  unfold has_response in H.
  destruct (get (responses Legacy.voice_service) category) as [[|c r]|];
    try discriminate.
  exists (c :: r). split; [reflexivity | discriminate].
Qed.

Lemma NoDup_keys_items {V} (d : dict V) : NoDup (keys d) -> NoDup d.
Proof. apply NoDup_map_inv. Qed.


Section Versions.

Variable str_lower : str -> str.

(** X6. The earlier service, on its own tables, answers every query with a
    non-empty response: the greeting response when one of its six greeting
    substrings occurs, otherwise the response of the first category in table
    order one of whose keywords occurs (whatever the later categories
    score), otherwise the default response. *)
Theorem legacy_answers_first_match query :
  exists category response,
    Legacy.process_query str_lower Legacy.voice_service query = Ok response
    /\ get Legacy.voice_service.(responses) category = Some response
    /\ response <> []
    /\ ((Legacy._is_greeting (normalize str_lower query) = true
         /\ category = u "greeting")
        \/ (Legacy._is_greeting (normalize str_lower query) = false
            /\ category = u "default"
            /\ forall c kws k,
                In (c, kws) Legacy.voice_service.(query_patterns) ->
                In k kws ->
                contains k (normalize str_lower query) = false)
        \/ (Legacy._is_greeting (normalize str_lower query) = false
            /\ exists before keywords after,
                Legacy.voice_service.(query_patterns)
                = before ++ (category, keywords) :: after
                /\ (exists k, In k keywords
                              /\ contains k (normalize str_lower query)
                                 = true)
                /\ forall c kws k,
                    In (c, kws) before -> In k kws ->
                    contains k (normalize str_lower query) = false)).
Proof.
  destruct legacy_tables as [_ Hresp].
  unfold Legacy.process_query. fold (normalize str_lower query).
  set (q := normalize str_lower query).
  destruct (Legacy._is_greeting q) eqn:Hg.
  - destruct (Hresp (u "greeting")) as (r & Hr & Hne);
      [apply in_or_app; right; now left|].
    exists (u "greeting"), r. unfold getitem. rewrite Hr.
    repeat split; auto.
  - destruct (first_match_spec Legacy.voice_service
                (items Legacy.voice_service.(query_patterns)) q)
      as [[Hn Hz]|(before & c & kws & after & Hp & Hf & Hpos & Hb)].
    + destruct (Hresp (u "default")) as (r & Hr & Hne);
        [apply in_or_app; right; right; now left|].
      exists (u "default"), r. rewrite Hn. unfold getitem. rewrite Hr.
      repeat split; auto. right. left. repeat split.
      intros c kws k Hin Hk. specialize (Hz c kws Hin).
      rewrite match_count_zero in Hz. auto.
    + destruct (Hresp c) as (r & Hr & Hne).
      { apply in_or_app. left. unfold items in Hp. rewrite Hp, keys_app.
        apply in_or_app. right. now left. }
      exists c, r. rewrite Hf. unfold getitem. rewrite Hr.
      repeat split; auto. right. right. split; [reflexivity|].
      exists before, kws, after. repeat split; auto.
      * now apply match_count_positive.
      * intros c' kws' k Hin Hk. specialize (Hb c' kws' Hin).
        rewrite match_count_zero in Hb. auto.
Qed.


End Versions.


(** ** The routes *)

Lemma contains_char (c : N) (s : str) : contains [c] s = true <-> In c s.
Proof.
  rewrite contains_spec. split.
  - intros (a & b & ->). apply in_or_app. right. now left.
  - intros H. apply in_split in H as (a & b & ->). now exists a, b.
Qed.

Lemma rsplit_last_none (sep : N) (s : str) :
  rsplit_last sep s = None <-> ~ In sep s.
Proof.
  induction s as [|c s IH]; simpl; [tauto|].
  destruct (rsplit_last sep s) as [[b a]|].
  - split; [discriminate|]. intros H. exfalso.
    assert (Hn : ~ In sep s) by tauto. apply IH in Hn. discriminate.
  - destruct (N.eqb_spec c sep) as [->|Hne].
    + split; [discriminate | tauto].
    + split; [|reflexivity]. intros _ [H|H]; [congruence|].
      now apply (proj1 IH).
Qed.

Lemma rsplit_last_some (sep : N) (s before after : str) :
  rsplit_last sep s = Some (before, after)
  <-> s = before ++ sep :: after /\ ~ In sep after.
Proof.
  revert before. induction s as [|c s IH]; intros before; simpl.
  - split; [discriminate|]. intros [H _]. destruct before; discriminate.
  - destruct (rsplit_last sep s) as [[b a]|] eqn:E.
    + split.
      * intros [= <- <-]. destruct (proj1 (IH b) eq_refl) as [-> Hn].
        split; [reflexivity | assumption].
      * intros [Hs Hn]. destruct before as [|x before]; simpl in Hs.
        -- injection Hs as -> ->. apply rsplit_last_none in Hn. congruence.
        -- injection Hs as -> Hs.
           assert (H := proj2 (IH before) (conj Hs Hn)).
           injection H as -> ->. reflexivity.
    + destruct (N.eqb_spec c sep) as [->|Hne].
      * split.
        -- intros [= <- <-]. split; [reflexivity|].
           now apply rsplit_last_none.
        -- intros [Hs Hn]. destruct before as [|x before]; simpl in Hs.
           ++ now injection Hs as ->.
           ++ injection Hs as -> Hs.
              assert (H := proj2 (IH before) (conj Hs Hn)). discriminate.
      * split; [discriminate|].
        intros [Hs Hn]. destruct before as [|x before]; simpl in Hs.
        -- injection Hs as -> _. congruence.
        -- injection Hs as -> Hs.
           assert (H := proj2 (IH before) (conj Hs Hn)). discriminate.
Qed.

Lemma dropwhile_nil_iff (f : N -> bool) (s : str) :
  dropwhile f s = [] <-> forallb f s = true.
Proof.
  induction s as [|c s IH]; simpl; [tauto|].
  destruct (f c); simpl; [assumption|]. split; discriminate.
Qed.

Lemma forallb_rev {A} (f : A -> bool) (l : list A) :
  forallb f (rev l) = forallb f l.
Proof.
  induction l as [|x l IH]; simpl; [reflexivity|].
  rewrite forallb_app, IH. simpl. rewrite andb_true_r. apply andb_comm.
Qed.

(** [strip] leaves nothing exactly of the strings made of whitespace. *)
Lemma strip_nil_iff (s : str) : strip s = [] <-> forallb isspace s = true.
Proof.
  unfold strip, lstrip.
  destruct (dropwhile_head isspace s) as [E|(c & r & E & Hc)].
  - rewrite E. rewrite dropwhile_nil_iff in E. split; [auto | reflexivity].
  - rewrite E, rstrip_cons_keep by assumption. split; [discriminate|].
    intros H. apply dropwhile_nil_iff in H. congruence.
Qed.

Lemma voice_process_query_ok (str_lower : str -> str) (query : str) :
  exists category response,
    process_query str_lower voice_service query = Ok response
    /\ get voice_service.(responses) category = Some response
    /\ In category Categories
    /\ response <> [].
Proof.
  destruct (classify_total str_lower _ voice_categories_distinct query)
    as (category & Hc & Hin).
  rewrite voice_categories_closed in Hin.
  destruct (voice_has_response category Hin) as (response & Hr & Hne).
  exists category, response. repeat split; auto.
  rewrite process_query_classify, Hc. unfold bind, getitem. now rewrite Hr.
Qed.

Section RouteProperties.

Variable str_lower : str -> str.
Variable str_of_error : error -> str.
Variable DB : Type.
Variable save : DB -> str -> str -> DB * option error.

(** X8. [allowed_file] never raises, and accepts exactly the names of the
    form stem, dot, extension where the extension has no dot and lowercases
    to png, jpg, jpeg or gif: only the text after the last dot counts, the
    stem may be anything (empty, or with other extensions in it), and a name
    without a dot or ending in a dot is refused. *)
Theorem allowed_file_accepts_exactly filename :
  exists allowed,
    allowed_file str_lower filename = Return allowed
    /\ (allowed = true
        <-> exists stem extension,
            filename = stem ++ u "." ++ extension
            /\ ~ In 46 extension
            /\ In (str_lower extension) ALLOWED_EXTENSIONS).
Proof.
  unfold allowed_file. change (u ".") with [46].
  destruct (contains [46] filename) eqn:Hdot.
  - apply contains_char in Hdot.
    unfold rsplit1. destruct (rsplit_last 46 filename) as [[b a]|] eqn:E.
    + apply rsplit_last_some in E as [-> Hn].
      unfold index, and_then. simpl nth_error.
      eexists. split; [reflexivity|]. rewrite existsb_exists. split.
      * intros (x & Hx & Heq). apply str_eqb_eq in Heq. subst x.
        now exists b, a.
      * intros (stem & ext & Hs & Hne & Hin).
        assert (Hsome : rsplit_last 46 (b ++ 46 :: a) = Some (stem, ext))
          by (apply rsplit_last_some; split; assumption).
        assert (Hsome' : rsplit_last 46 (b ++ 46 :: a) = Some (b, a))
          by (apply rsplit_last_some; split; [reflexivity | assumption]).
        rewrite Hsome' in Hsome. injection Hsome as -> ->.
        exists (str_lower ext). split; [assumption | apply str_eqb_refl].
    + apply rsplit_last_none in E. contradiction.
  - exists false. split; [reflexivity|]. split; [discriminate|].
    intros (stem & ext & -> & _).
    assert (H : contains [46] (stem ++ [46] ++ ext) = true)
      by (apply contains_spec; now exists stem, ext).
    congruence.
Qed.

(** X9. The voice route answers 400 exactly when the request body is a
    JSON object whose ['query'] is absent or a string of whitespace only;
    it then says [Query is required] and does not touch the database,
    whatever the database layer would do. *)
Theorem voice_route_rejects_blank_exactly get_json db :
  (status (fst (process_voice_query str_lower str_of_error DB save
                                    get_json db)) = 400
   <-> exists members,
       get_json = Return (JObj members)
       /\ (get members (u "query") = None
           \/ exists s, get members (u "query") = Some (JStr s)
                        /\ forallb isspace s = true))
  /\ (status (fst (process_voice_query str_lower str_of_error DB save
                                       get_json db)) = 400 ->
      process_voice_query str_lower str_of_error DB save get_json db
      = (error_response 400 (u "Query is required"), db)).
Proof.
  unfold process_voice_query, process_voice_query_try.
  destruct get_json as [data|e].
  2:{ simpl. split; [split; [discriminate|]|discriminate].
      intros (m & H & _). discriminate. }
  destruct data as [| b | n | s | l | members];
    try (simpl; split; [split; [discriminate|]|discriminate];
         intros (m & H & _); discriminate).
  unfold data_get, and_then.
  destruct (get members (u "query")) as [v|] eqn:Hq.
  - destruct v as [| b | n | s | l | m'];
      try (simpl; split; [split; [discriminate|]|discriminate];
           intros (m & [= <-] & [H|(s & H & _)]); congruence).
    unfold value_strip.
    destruct (strip s) as [|c r] eqn:Hs.
    + simpl. split; [split; [intros _|reflexivity]|reflexivity].
      exists members. split; [reflexivity|]. right. exists s.
      split; [assumption | now apply strip_nil_iff].
    + assert (Hblank : forallb isspace s = true -> False).
      { intros H. apply strip_nil_iff in H. congruence. }
      destruct (voice_process_query_ok str_lower (c :: r))
        as (cat & resp & -> & _).
      destruct (save db (c :: r) resp) as [db' [e|]]; simpl;
        (split; [split; [discriminate|]|discriminate]);
        intros (m & [= <-] & [H|(s' & H & Hb)]); try congruence;
        rewrite Hq in H; injection H as <-; auto.
  - change (value_strip (JStr (u ""))) with (Return (@nil N)).
    simpl. split; [split; [intros _|reflexivity]|reflexivity].
    exists members. split; [reflexivity | now left].
Qed.

(** X10. For a body whose ['query'] is a string with some non-whitespace in
    it, the voice route passes the stripped query to the responder, which
    always answers; the query and its non-empty canned response are handed
    to the database layer exactly once, and the route answers 200 with both
    when the layer raises nothing, and 500 with the layer's error
    otherwise. *)
Theorem voice_route_answers_non_blank members s db :
  get members (u "query") = Some (JStr s) ->
  forallb isspace s = false ->
  exists category response,
    get voice_service.(responses) category = Some response
    /\ In category Categories
    /\ response <> []
    /\ process_query str_lower voice_service (strip s) = Ok response
    /\ process_voice_query str_lower str_of_error DB save
                           (Return (JObj members)) db
       = (match snd (save db (strip s) response) with
          | None =>
            {| status := 200;
               body := JObj [(u "success", JBool true);
                             (u "data",
                              JObj [(u "query", JStr (strip s));
                                    (u "response", JStr response)])] |}
          | Some e => error_response 500 (str_of_error e)
          end,
          fst (save db (strip s) response)).
Proof.
  intros Hq Hns.
  destruct (voice_process_query_ok str_lower (strip s))
    as (category & response & Hp & Hr & Hin & Hne).
  exists category, response. repeat split; auto.
  unfold process_voice_query, process_voice_query_try, data_get, and_then.
  rewrite Hq. unfold value_strip.
  destruct (strip s) as [|c r] eqn:Hs.
  - apply strip_nil_iff in Hs. congruence.
  - rewrite Hp. destruct (save db (c :: r) response) as [db' [e|]];
      reflexivity.
Qed.

End RouteProperties.

Lemma voice_route_answers_non_blank_witness :
  exists category response,
    get voice_service.(responses) category = Some response
    /\ In category Categories
    /\ response <> []
    /\ process_query ascii_lower voice_service (strip (u "  rain? "))
       = Ok response
    /\ process_voice_query
         ascii_lower (fun _ => u "error") (list (str * str))
         (fun db q r => (db ++ [(q, r)], None))
         (Return (JObj [(u "query", JStr (u "  rain? "))])) []
       = ({| status := 200;
             body := JObj [(u "success", JBool true);
                           (u "data",
                            JObj [(u "query", JStr (strip (u "  rain? ")));
                                  (u "response", JStr response)])] |},
          [(strip (u "  rain? "), response)]).
Proof.
  apply (voice_route_answers_non_blank
           ascii_lower (fun _ => u "error") (list (str * str))
           (fun db q r => (db ++ [(q, r)], None))
           [(u "query", JStr (u "  rain? "))] (u "  rain? ") []).
  - reflexivity.
  - vm_compute. reflexivity.
Defined.

(** ** The market prices *)

Section MarketProperties.

Variable str_lower : str -> str.

Lemma item_category_lower_entry (p : json) :
  match entry_category p with
  | Some s => item_category_lower str_lower p = Return (str_lower s)
  | None => exists e, item_category_lower str_lower p = Throw e
  end.
Proof.
  unfold entry_category, item_category_lower.
  destruct p as [| b | n | s | l | members]; try (eexists; reflexivity).
  destruct (get members (u "category")) as [[| b | n | s | l | m]|];
    first [reflexivity | eexists; reflexivity].
Qed.

Lemma select_category_well_formed category (elements : list json) :
  Forall (fun p => entry_category p <> None) elements ->
  select_category str_lower category elements
  = Return (filter (entry_matches str_lower category) elements).
Proof.
  induction 1 as [|p rest Hp _ IH]; [reflexivity|].
  simpl. unfold entry_matches at 1.
  assert (H := item_category_lower_entry p).
  destruct (entry_category p) as [s|]; [|congruence].
  rewrite H, IH. simpl.
  destruct (str_eqb (str_lower s) (str_lower category)); reflexivity.
Qed.

Lemma select_category_malformed category (elements : list json) :
  Exists (fun p => entry_category p = None) elements ->
  exists e, select_category str_lower category elements = Throw e.
Proof.
  induction 1 as [p rest Hp|p rest _ IH]; simpl.
  - assert (H := item_category_lower_entry p). rewrite Hp in H.
    destruct H as [e ->]. now exists e.
  - destruct (item_category_lower str_lower p) as [c|e]; simpl;
      [|now exists e].
    destruct IH as [e ->]. now exists e.
Qed.

(** X11. When the cache holds a list of entries that each carry a string
    ['category'], a request for a category other than ['all'] returns the
    entries whose category equals the requested one after lowercasing, in
    the order of the file and with nothing else changed. *)
Theorem market_prices_filtered_by_category elements category :
  str_lower category <> u "all" ->
  Forall (fun p => entry_category p <> None) elements ->
  get_market_prices str_lower (Return (JArr elements)) category
  = JArr (filter (entry_matches str_lower category) elements).
Proof.
  intros Hall Hwf. unfold get_market_prices, and_then, iterate.
  apply str_eqb_neq in Hall. rewrite Hall.
  now rewrite select_category_well_formed.
Qed.

(** X12. The cache is used all or nothing.  If it cannot be read, every
    request gets the four built-in entries, whatever category was asked
    for.  If it can be read, ['all'] returns its content as it is, without
    looking at the entries, while for any other category a single entry
    without a string ['category'] makes the request fall back to the four
    built-in entries. *)
Theorem market_prices_fallback category :
  (forall e,
      get_market_prices str_lower (Throw e) category = JArr fallback_prices)
  /\ (forall content,
         str_lower category = u "all" ->
         get_market_prices str_lower (Return content) category = content)
  /\ (forall elements,
         str_lower category <> u "all" ->
         Exists (fun p => entry_category p = None) elements ->
         get_market_prices str_lower (Return (JArr elements)) category
         = JArr fallback_prices).
Proof.
  split; [reflexivity|]. split.
  - intros content Hall. unfold get_market_prices, and_then.
    rewrite Hall. reflexivity.
  - intros elements Hall Hbad. unfold get_market_prices, and_then, iterate.
    apply str_eqb_neq in Hall. rewrite Hall.
    destruct (select_category_malformed category elements Hbad) as [e ->].
    reflexivity.
Qed.

End MarketProperties.

Lemma market_prices_filtered_by_category_witness :
  get_market_prices
    ascii_lower
    (Return (JArr [price_item "Vegetable" "Onion" "30-40/kg";
                   price_item "Fruit" "Apple" "120-150/kg";
                   price_item "fruit" "Guava" "40-60/kg"]))
    (u "FRUIT")
  = JArr [price_item "Fruit" "Apple" "120-150/kg";
          price_item "fruit" "Guava" "40-60/kg"].
Proof.
  rewrite (market_prices_filtered_by_category ascii_lower).
  - vm_compute. reflexivity.
  - vm_compute. discriminate.
  - repeat constructor; vm_compute; discriminate.
Defined.

(** ** The JSON file store *)

Lemma slice_from_last {A} (n : nat) (xs : list A) :
  slice_from (- Z.of_nat (S n)) xs
  = skipn (List.length xs - S n) xs.
Proof.
  unfold slice_from.
  assert (H : (- Z.of_nat (S n) <? 0)%Z = true) by (apply Z.ltb_lt; lia).
  rewrite H. f_equal. lia.
Qed.

Lemma skipn_snoc {A} (k : nat) (xs : list A) (x : A) :
  (k <= List.length xs)%nat -> skipn k (xs ++ [x]) = skipn k xs ++ [x].
Proof.
  intros H. rewrite skipn_app.
  replace (k - List.length xs)%nat with 0%nat by lia. reflexivity.
Qed.

(** X13. [save_voice_query] on a file that is absent, is text that is not
    JSON, or holds a list: the file afterwards holds the previous entries
    minus the oldest ones, followed by the new entry; it never holds more
    than 100 entries, nothing is dropped while there is room, and no other
    file changes.  On a file holding JSON that is not a list the call
    raises [AttributeError], and on a file that cannot be read for another
    reason it raises what reading it raised; in both cases nothing is
    written. *)
Theorem save_voice_query_keeps_last_100 now fs query response :
  match load_json fs (data_path "voice_queries.json") with
  | Return (JArr entries) =>
    exists fs' dropped kept,
      save_voice_query now fs query response = Return fs'
      /\ entries = dropped ++ kept
      /\ load_json fs' (data_path "voice_queries.json")
         = Return (JArr (kept ++ [JObj [(u "query", JStr query);
                                       (u "response", JStr response);
                                       (u "timestamp", JStr now)]]))
      /\ List.length kept = Nat.min (List.length entries) 99
      /\ (forall path, path <> data_path "voice_queries.json" ->
                       fs' path = fs path)
  | Return _ => save_voice_query now fs query response = Throw AttributeError
  | Throw e => save_voice_query now fs query response = Throw e
  end.
Proof.
  unfold save_voice_query.
  destruct (load_json fs (data_path "voice_queries.json"))
    as [[| b | n | s | entries | members]|e]; try reflexivity.
  cbv beta iota delta [and_then].
  set (entry := JObj [(u "query", JStr query); (u "response", JStr response);
                      (u "timestamp", JStr now)]).
  set (k := (List.length entries - 99)%nat).
  assert (Hslice : slice_from (-100) (entries ++ [entry])
                   = skipn k entries ++ [entry]).
  { change (-100)%Z with (- Z.of_nat 100)%Z. rewrite slice_from_last.
    rewrite length_app. simpl List.length.
    replace (List.length entries + 1 - 100)%nat with k by (unfold k; lia).
    apply skipn_snoc. unfold k. lia. }
  rewrite Hslice.
  eexists _, (firstn k entries), (skipn k entries).
  split; [reflexivity|]. split; [now rewrite firstn_skipn|]. split; [|split].
  - unfold load_json, save_json. now rewrite str_eqb_refl.
  - rewrite length_skipn. unfold k. lia.
  - intros path Hne. unfold save_json. apply str_eqb_neq in Hne.
    now rewrite Hne.
Qed.

(** X14. [get_prediction_history] when [load_json] returns a list (the
    stored one, or the empty list for a file that is absent or is text that
    is not JSON; a file that cannot be read for another reason makes
    [load_json] raise and is not covered): for a limit of at least one it
    returns the newest entries first, [limit] of them or all if there are
    fewer; for limit zero it returns all entries, newest first, not none;
    for a negative limit it leaves out the oldest [-limit] entries. *)
Theorem prediction_history_newest_first dict_slice_error fs limit entries :
  load_json fs (data_path "predictions.json") = Return (JArr entries) ->
  exists history,
    get_prediction_history dict_slice_error fs limit
    = Return (JArr history)
    /\ (exists older, entries = older ++ rev history)
    /\ ((1 <= limit)%Z ->
        List.length history
        = Nat.min (Z.to_nat limit) (List.length entries))
    /\ (limit = 0%Z -> history = rev entries)
    /\ ((limit < 0)%Z ->
        history = rev (skipn (Z.to_nat (- limit)) entries)).
Proof.
  intros Hload. unfold get_prediction_history. rewrite Hload.
  cbv beta iota delta [and_then].
  eexists. split; [reflexivity|]. split; [|split; [|split]].
  - unfold slice_from. rewrite rev_involutive.
    eexists. symmetry. apply firstn_skipn.
  - intros Hl. rewrite length_rev.
    replace (- limit)%Z with (- Z.of_nat (S (Z.to_nat limit - 1)))%Z by lia.
    rewrite slice_from_last, length_skipn. lia.
  - intros ->. unfold slice_from. simpl.
    rewrite Z.min_l by lia. reflexivity.
  - intros Hl. unfold slice_from.
    assert (H : (- limit <? 0)%Z = false) by (apply Z.ltb_ge; lia).
    rewrite H. f_equal.
    destruct (Z.min_spec (- limit) (Z.of_nat (List.length entries)))
      as [[_ ->]|[Hge ->]]; [reflexivity|].
    rewrite Nat2Z.id, skipn_all.
    symmetry. apply skipn_all2. lia.
Qed.

Lemma prediction_history_newest_first_witness :
  get_prediction_history
    (Builtin TypeError)
    (fun path =>
       if str_eqb path (data_path "predictions.json")
       then Holds (JArr [JStr (u "first"); JStr (u "second");
                         JStr (u "third")])
       else Missing)
    0
  = Return (JArr [JStr (u "third"); JStr (u "second"); JStr (u "first")]).
Proof.
  destruct (prediction_history_newest_first
              (Builtin TypeError)
              (fun path =>
                 if str_eqb path (data_path "predictions.json")
                 then Holds (JArr [JStr (u "first"); JStr (u "second");
                                   JStr (u "third")])
                 else Missing)
              0%Z
              [JStr (u "first"); JStr (u "second"); JStr (u "third")])
    as (history & Hget & _ & _ & Hzero & _).
  - vm_compute. reflexivity.
  - rewrite Hget, (Hzero eq_refl). reflexivity.
Defined.

(** ** Disease names and treatments *)

Lemma replace_char (c d : N) (s : str) :
  replace [c] [d] s = map (fun x => if x =? c then d else x) s.
Proof.
  unfold replace. induction s as [|x s IH]; [reflexivity|].
  cbn [replace_from startswith map List.length Nat.sub].
  rewrite N.eqb_sym. destruct (x =? c); simpl; now rewrite IH.
Qed.

Lemma replace_absent (c : N) (old' new s : str) :
  ~ In c s -> replace (c :: old') new s = s.
Proof.
  unfold replace. induction s as [|x s IH]; intros Hn; [reflexivity|].
  cbn [replace_from startswith].
  destruct (N.eqb_spec c x) as [->|Hne].
  - exfalso. apply Hn. now left.
  - simpl. rewrite IH; [reflexivity|]. intros H. apply Hn. now right.
Qed.

Lemma replace_prefix_absent (c : N) (old' new a t : str) :
  ~ In c a ->
  replace (c :: old') new (a ++ t) = a ++ replace (c :: old') new t.
Proof.
  unfold replace. induction a as [|x a IH]; intros Hn; [reflexivity|].
  cbn [app replace_from startswith].
  destruct (N.eqb_spec c x) as [->|Hne].
  - exfalso. apply Hn. now left.
  - simpl. rewrite IH; [reflexivity|]. intros H. apply Hn. now right.
Qed.

Lemma format_no_underscore (disease_key : str) :
  ~ In 95 (_format_disease_name disease_key).
Proof.
  unfold _format_disease_name. change (u "_") with [95].
  change (u " ") with [32]. rewrite replace_char.
  intros H. apply in_map_iff in H as (x & Hx & _).
  destruct (N.eqb_spec x 95); congruence.
Qed.

Lemma format_unchanged (disease_key : str) :
  ~ In 95 disease_key -> _format_disease_name disease_key = disease_key.
Proof.
  intros H. unfold _format_disease_name.
  change (u "___") with [95; 95; 95]. change (u "_") with [95].
  rewrite (replace_absent 95 [95; 95] _ _ H).
  apply (replace_absent 95 [] _ _ H).
Qed.

(** X15. A formatted disease name contains no underscore; a name without
    underscores is returned as it is, so formatting twice changes nothing
    more; and a crop and a condition joined by three underscores come out
    joined by space, hyphen, space. *)
Theorem format_disease_name_properties disease_key :
  ~ In 95 (_format_disease_name disease_key)
  /\ (~ In 95 disease_key -> _format_disease_name disease_key = disease_key)
  /\ _format_disease_name (_format_disease_name disease_key)
     = _format_disease_name disease_key
  /\ (forall crop condition,
         ~ In 95 crop -> ~ In 95 condition ->
         _format_disease_name (crop ++ u "___" ++ condition)
         = crop ++ u " - " ++ condition).
Proof.
  split; [apply format_no_underscore|].
  split; [apply format_unchanged|].
  split; [apply format_unchanged, format_no_underscore|].
  intros crop condition Hc Hd.
  assert (H1 : replace (u "___") (u " - ") (crop ++ u "___" ++ condition)
               = crop ++ u " - " ++ condition).
  { change (u "___") with [95; 95; 95].
    rewrite replace_prefix_absent by assumption. f_equal.
    unfold replace. cbn [app replace_from startswith List.length Nat.sub].
    rewrite N.eqb_refl. cbn [andb]. f_equal.
    destruct condition as [|x r]; [reflexivity|].
    apply (replace_absent 95 [95; 95] (u " - ") (x :: r) Hd). }
  unfold _format_disease_name. rewrite H1.
  change (u "_") with [95]. apply replace_absent.
  intros H. apply in_app_or in H as [H|H]; [contradiction|].
  apply in_app_or in H as [H|H]; [|contradiction].
  vm_compute in H. intuition discriminate.
Qed.

Lemma class_of_in (classes : list (Z * str)) (idx : Z) :
  In idx (map fst classes) ->
  exists name, class_of classes idx = Return name /\ In (idx, name) classes.
Proof.
  induction classes as [|[i name] rest IH]; simpl; [contradiction|].
  intros Hin. destruct (Z.eqb_spec i idx) as [->|Hne].
  - exists name. split; [reflexivity | now left].
  - destruct Hin as [Hin|Hin]; [contradiction|].
    destruct (IH Hin) as (n & Hn & Hi). exists n. split; [assumption|].
    now right.
Qed.

Lemma disease_class_indices :
  map fst DISEASE_CLASSES = map Z.of_nat (seq 0 39).
Proof. vm_compute. reflexivity. Qed.

Section DiseaseProperties.

Variable Confidence : Type.
Variable zero : Confidence.
Variable percent : Confidence -> Confidence.
Variables Model Transform : Type.
Variable infer : Model -> Transform -> list N -> outcome (Confidence * Z).

(** X16. With a model and a transform loaded, whenever the image pipeline
    yields a class index from 0 to 38, [predict_disease] returns a result
    for that class with the confidence as a percentage and a display name
    without underscores.  The advice stored under the key ['healthy'] is
    never the one returned: a class whose name ends in [healthy] gets the
    generic advice to consult an extension officer. *)
Theorem healthy_treatment_is_never_returned
        (the_model : Model) (the_transform : Transform)
        (image_bytes : list N) (confidence_value : Confidence) (idx : Z) :
  infer the_model the_transform image_bytes
  = Return (confidence_value, idx) ->
  (0 <= idx < 39)%Z ->
  exists prediction,
    predict_disease Confidence zero percent Model Transform infer
                    {| model := Some the_model;
                       transform := Some the_transform |}
                    image_bytes
    = Return prediction
    /\ class_of DISEASE_CLASSES idx = Return (disease prediction)
    /\ confidence prediction = percent confidence_value
    /\ ~ In 95 (formatted_name prediction)
    /\ get TREATMENT_RECOMMENDATIONS (u "healthy")
       <> Some (treatment prediction)
    /\ (endswith (u "healthy") (disease prediction) = true ->
        treatment prediction
        = u "Consult with local agricultural extension officer for specific treatment").
Proof.
  intros Hinfer Hidx.
  assert (Hin : In idx (map fst DISEASE_CLASSES)).
  { rewrite disease_class_indices. apply in_map_iff.
    exists (Z.to_nat idx). split; [lia|]. apply in_seq. lia. }
  destruct (class_of_in _ _ Hin) as (name & Hclass & Hitem).
  unfold predict_disease, is_model_available. cbn [model transform negb].
  rewrite Hinfer. cbn [and_then]. rewrite Hclass. cbn [and_then].
  eexists. split; [reflexivity|]. cbn [disease confidence treatment
                                         formatted_name].
  split; [reflexivity|]. split; [reflexivity|].
  split; [apply format_no_underscore|].
  assert (Hcheck :
            forallb
              (fun item : Z * str =>
                 match get TREATMENT_RECOMMENDATIONS (snd item) with
                 | Some t =>
                   negb (endswith (u "healthy") (snd item))
                   && negb (str_eqb t (u "Plant appears healthy! Continue with regular care and monitoring."))
                 | None => true
                 end)
              DISEASE_CLASSES = true) by (vm_compute; reflexivity).
  rewrite forallb_forall in Hcheck. specialize (Hcheck _ Hitem).
  cbn [snd] in Hcheck.
  change (get TREATMENT_RECOMMENDATIONS (u "healthy"))
    with (Some (u "Plant appears healthy! Continue with regular care and monitoring.")).
  destruct (get TREATMENT_RECOMMENDATIONS name) as [t|].
  - apply andb_true_iff in Hcheck as [He Ht].
    apply negb_true_iff in He, Ht. apply str_eqb_neq in Ht.
    split; [congruence|]. intros H. congruence.
  - split; [discriminate | reflexivity].
Qed.

End DiseaseProperties.

Lemma healthy_treatment_is_never_returned_witness :
  exists prediction : Prediction N,
    predict_disease N 0 (fun c => c * 100) unit unit
                    (fun _ _ _ => Return (1, 38%Z))
                    {| model := Some tt; transform := Some tt |} []
    = Return prediction
    /\ disease prediction = u "Tomato___healthy"
    /\ formatted_name prediction = u "Tomato - healthy"
    /\ treatment prediction
       = u "Consult with local agricultural extension officer for specific treatment".
Proof.
  destruct (healthy_treatment_is_never_returned
              N 0 (fun c => c * 100) unit unit
              (fun _ _ _ => Return (1, 38%Z)) tt tt [] 1 38%Z)
    as (prediction & Hp & Hc & _ & _ & _ & Hh); [reflexivity | lia |].
  exists prediction. split; [exact Hp|].
  vm_compute in Hp. injection Hp as <-.
  split; [reflexivity|]. split; [reflexivity|].
  apply Hh. vm_compute. reflexivity.
Defined.

(** ** The colour heuristic *)

Section ColorProperties.

Variable F : Type.
Variable lit : string -> F.
Variables fadd quotient : F -> F -> F.
Variable is_zero : F -> bool.
Variables fgt flt : F -> F -> bool.
Variable image_mean : list N -> outcome (F * F * F).

(** X17. [analyze_image] never raises.  It reports ['analysis_error']
    exactly when the image cannot be loaded and measured or the three
    colour averages sum to zero (the division by the sum then fails, so an
    all-black image is an error, not dark patches).  In every other case
    the label it reports has an entry in [disease_patterns], and the name
    and treatment returned are that entry's: no label of the heuristic is
    missing from the table. *)
Theorem analyze_image_error_exactly (image_data : list N) :
  let result :=
      Color.analyze_image F lit fadd quotient is_zero fgt flt image_mean
                          Color.disease_service image_data in
  (disease result = u "analysis_error"
   <-> (exists e, image_mean image_data = Throw e)
       \/ (exists avg_r avg_g avg_b,
              image_mean image_data = Return (avg_r, avg_g, avg_b)
              /\ is_zero (fadd (fadd avg_r avg_g) avg_b) = true))
  /\ (disease result <> u "analysis_error" ->
      exists disease_info,
        get Color.disease_service.(Color.disease_patterns) (disease result)
        = Some disease_info
        /\ get disease_info (u "name") = Some (formatted_name result)
        /\ get disease_info (u "treatment") = Some (treatment result)).
Proof.
  cbv zeta. unfold Color.analyze_image.
  destruct (image_mean image_data) as [[[avg_r avg_g] avg_b]|e] eqn:Hmean.
  2:{ cbv beta iota delta [and_then disease]. split.
      - split; [intros _; left; now exists e | reflexivity].
      - intros H. exfalso. apply H. reflexivity. }
  cbv beta iota delta [and_then]. unfold Color._analyze_colors, Color.fdiv.
  destruct (is_zero (fadd (fadd avg_r avg_g) avg_b)) eqn:Hz.
  - cbv beta iota delta [and_then disease]. split.
    + split; [|reflexivity]. intros _. right.
      exists avg_r, avg_g, avg_b. split; [reflexivity | assumption].
    + intros H. exfalso. apply H. reflexivity.
  - cbv beta iota delta [and_then].
    assert (Hno : (exists e, @Return (F * F * F) (avg_r, avg_g, avg_b)
                             = Throw e)
                  \/ (exists r g b,
                         @Return (F * F * F) (avg_r, avg_g, avg_b)
                         = Return (r, g, b)
                         /\ is_zero (fadd (fadd r g) b) = true) -> False).
    { intros [[e He]|(r & g & b & [= <- <- <-] & Hb)];
        [discriminate | congruence]. }
    repeat match goal with
           | |- context [if ?c then Return _ else _] => destruct c
           end;
      vm_compute;
      (split;
       [split; [discriminate | intros H; exfalso; exact (Hno H)]
       | intros _; eexists; split; [reflexivity|]; split; reflexivity]).
Qed.

End ColorProperties.

(** ** The response is the table's entry for the specified category *)

Lemma first_max_unique {V} (f : V -> N) (table : dict V)
      (b a b' a' : dict V) (c c' : str) (t t' : V) :
  NoDup (keys table) ->
  table = b ++ (c, t) :: a ->
  table = b' ++ (c', t') :: a' ->
  (forall k v, In (k, v) b -> f v < f t) ->
  (forall k v, In (k, v) a -> f v <= f t) ->
  (forall k v, In (k, v) b' -> f v < f t') ->
  (forall k v, In (k, v) a' -> f v <= f t') ->
  c = c'.
Proof.
  intros Hnd Hs Hs' Hb Ha Hb' Ha'.
  assert (Hndi : NoDup table) by now apply NoDup_keys_items.
  assert (Hin : In (c', t') table)
    by (rewrite Hs'; apply in_or_app; right; now left).
  rewrite Hs in Hin. apply in_app_or in Hin as [Hin|[Hin|Hin]].
  - exfalso. assert (Hlt := Hb _ _ Hin).
    destruct (in_split _ _ Hin) as (b1 & b2 & ->).
    assert (E : b' ++ (c', t') :: a'
                = b1 ++ (c', t') :: (b2 ++ (c, t) :: a)).
    { rewrite <- Hs', Hs. now rewrite <- app_assoc. }
    rewrite Hs' in Hndi.
    destruct (NoDup_split_unique _ _ _ _ _ Hndi E) as [_ ->].
    assert (Hle : f t <= f t')
      by (apply (Ha' c); apply in_or_app; right; now left).
    lia.
  - now injection Hin as ->.
  - exfalso. assert (Hle := Ha _ _ Hin).
    destruct (in_split _ _ Hin) as (a1 & a2 & ->).
    assert (E : b' ++ (c', t') :: a'
                = (b ++ (c, t) :: a1) ++ (c', t') :: a2).
    { rewrite <- Hs', Hs. now rewrite <- app_assoc. }
    rewrite Hs' in Hndi.
    destruct (NoDup_split_unique _ _ _ _ _ Hndi E) as [-> _].
    assert (Hlt : f t < f t')
      by (apply (Hb' c); apply in_or_app; right; now left).
    lia.
Qed.

Lemma voice_count_distinct (q : str) category keywords :
  In (category, keywords) voice_service.(query_patterns) ->
  distinct_triggers_present keywords q = match_count keywords q.
Proof.
  intros Hin. symmetry. apply match_count_distinct.
  now apply (voice_keywords_distinct category).
Qed.

Section Refinement.

Variable str_lower : str -> str.

(** C5. For every query there is exactly one category that the
    specification's classification assigns to it; it is the key
    [process_query] selects, it is one of the ten categories, the response
    table has an entry for it, and the string [process_query] returns is
    that entry, unchanged. *)
Theorem respond_is_table_lookup query :
  exists category response,
    spec_classifies str_lower voice_service.(query_patterns) query category
    /\ (forall category',
           spec_classifies str_lower voice_service.(query_patterns)
                           query category' ->
           category' = category)
    /\ classify str_lower voice_service query = Ok category
    /\ In category Categories
    /\ get voice_service.(responses) category = Some response
    /\ process_query str_lower voice_service query = Ok response.
Proof.
  set (q := normalize str_lower query).
  assert (Hfinish : forall category,
             classify str_lower voice_service query = Ok category ->
             exists response,
               In category Categories
               /\ get voice_service.(responses) category = Some response
               /\ process_query str_lower voice_service query = Ok response).
  { intros category Hc.
    assert (Hin := classify_in_categories _ _ _ Hc).
    destruct (voice_has_response category Hin) as (response & Hr & _).
    exists response. repeat split; auto.
    rewrite process_query_classify, Hc. unfold bind, getitem.
    now rewrite Hr. }
  unfold spec_classifies. fold q. rewrite <- is_greeting_existsb.
  destruct (_is_greeting q) eqn:Hg.
  - assert (Hc : classify str_lower voice_service query = Ok (u "greeting"))
      by now apply classify_greeting.
    destruct (Hfinish _ Hc) as (response & H1 & H2 & H3).
    exists (u "greeting"), response. repeat split; auto.
  - destruct (scores voice_service.(query_patterns) q) as [|item rest] eqn:Hs.
    + assert (Hc : classify str_lower voice_service query = Ok (u "default"))
        by (apply classify_default; auto using voice_categories_distinct).
      destruct (Hfinish _ Hc) as (response & H1 & H2 & H3).
      assert (Hzero : forall c triggers,
                 In (c, triggers) voice_service.(query_patterns) ->
                 distinct_triggers_present triggers q = 0).
      { intros c ts Hin. rewrite (voice_count_distinct q c ts Hin).
        now apply (proj1 (scores_nil_iff _ _) Hs c). }
      exists (u "default"), response. repeat split; auto.
      intros c' [[-> _]|(before & ts & after & Hp & Hpos & _)];
        [reflexivity|].
      assert (Hin : In (c', ts) voice_service.(query_patterns))
        by (rewrite Hp; apply in_or_app; right; now left).
      rewrite (Hzero _ _ Hin) in Hpos. lia.
    + assert (Hne : scores voice_service.(query_patterns) q <> [])
        by (rewrite Hs; discriminate).
      destruct (best_category_first_max _ _ voice_categories_distinct Hne)
        as (before & c & kws & after & Hp & Hm & Hpos & Hb & Ha).
      assert (Hc : classify str_lower voice_service query = Ok c).
      { rewrite classify_best; auto using voice_categories_distinct. }
      destruct (Hfinish _ Hc) as (response & H1 & H2 & H3).
      assert (Hcin : In (c, kws) voice_service.(query_patterns))
        by (rewrite Hp; apply in_or_app; right; now left).
      assert (Hbin : forall c' ts', In (c', ts') before ->
                                    In (c', ts') voice_service.(query_patterns))
        by (intros; rewrite Hp; apply in_or_app; now left).
      assert (Hain : forall c' ts', In (c', ts') after ->
                                    In (c', ts') voice_service.(query_patterns))
        by (intros; rewrite Hp; apply in_or_app; right; now right).
      assert (Hb2 : forall c' ts',
                 In (c', ts') before ->
                 distinct_triggers_present ts' q
                 < distinct_triggers_present kws q).
      { intros c' ts' Hin.
        rewrite (voice_count_distinct q c' ts' (Hbin _ _ Hin)),
                (voice_count_distinct q c kws Hcin). eauto. }
      assert (Ha2 : forall c' ts',
                 In (c', ts') after ->
                 distinct_triggers_present ts' q
                 <= distinct_triggers_present kws q).
      { intros c' ts' Hin.
        rewrite (voice_count_distinct q c' ts' (Hain _ _ Hin)),
                (voice_count_distinct q c kws Hcin). eauto. }
      exists c, response. repeat split; auto.
      * right. exists before, kws, after. repeat split; auto.
        now rewrite (voice_count_distinct q c kws Hcin).
      * intros c' [[-> Hz]|(before' & ts' & after' & Hp' & Hpos' & Hb' & Ha')].
        -- specialize (Hz c kws Hcin).
           rewrite (voice_count_distinct q c kws Hcin) in Hz. lia.
        -- symmetry.
           eapply (first_max_unique
                     (fun ts => distinct_triggers_present ts q)
                     voice_service.(query_patterns));
             eauto using voice_categories_distinct.
Qed.

End Refinement.

(** ** Calls on the stored instance *)

Lemma read_old (a : Store.addr) (h g : Store.store) :
  (a < List.length h)%nat -> Store.read a (h ++ g) = Store.read a h.
Proof. intros H. unfold Store.read. now apply nth_error_app1. Qed.

Lemma read_new (h : Store.store) (o : Store.object) :
  Store.read (List.length h) (h ++ [o]) = Some o.
Proof.
  unfold Store.read. rewrite nth_error_app2 by lia.
  now rewrite Nat.sub_diag.
Qed.

Lemma read_allocated (a : Store.addr) (h : Store.store) (o : Store.object) :
  Store.read a h = Some o -> (a < List.length h)%nat.
Proof.
  intros H. apply nth_error_Some. unfold Store.read in H. congruence.
Qed.

Lemma write_new (h : Store.store) (x o : Store.object) :
  Store.write (List.length h) o (h ++ [x]) = h ++ [o].
Proof. induction h as [|y h IH]; simpl; [reflexivity | now rewrite IH]. Qed.

(** The loop writes only into the dict it was given: with that dict last
    in the store, the rest of the store is as before and the dict ends up
    as the [matches] of the loop on values. *)
Lemma store_score_loop (q : str) (items : list (str * list str)) :
  forall (h : Store.store) (acc : dict N),
    Store.score_loop (List.length h) q items (h ++ [Store.CountsDict acc])
    = (Ok tt, h ++ [Store.CountsDict (fold_left (score_step q) items acc)]).
Proof.
  induction items as [|[c kws] rest IH]; intros h acc; [reflexivity|].
  cbn [Store.score_loop fold_left].
  change (score_step q acc (c, kws))
    with (if 0 <? match_count kws q
          then setitem acc c (match_count kws q) else acc).
  destruct (0 <? match_count kws q); [|apply IH].
  unfold Store.setitem_at. rewrite read_new, write_new. apply IH.
Qed.

Lemma holds_extend (h g : Store.store) self service :
  Store.holds h self service -> Store.holds (h ++ g) self service.
Proof.
  intros (p & r & Hs & Hp & Hr). exists p, r.
  rewrite !read_old by (eapply read_allocated; eauto). auto.
Qed.

Section StoredInstance.

Variable str_lower : str -> str.

(** A call on a stored instance returns what [process_query] returns on
    the instance's tables, and leaves the store as it was except for
    objects allocated during the call. *)
Lemma store_process_query h self service query :
  Store.holds h self service ->
  fst (Store.process_query str_lower self query h)
  = process_query str_lower service query
  /\ exists garbage,
      snd (Store.process_query str_lower self query h) = h ++ garbage.
Proof.
  intros (p & r & Hs & Hp & Hr).
  unfold Store.process_query, process_query. rewrite Hs.
  destruct (_is_greeting (normalize str_lower query)).
  - cbn [fst snd]. unfold Store.response_at. rewrite Hr.
    split; [reflexivity|]. exists []. now rewrite app_nil_r.
  - unfold Store.alloc.
    rewrite read_old by (eapply read_allocated; eauto). rewrite Hp.
    rewrite store_score_loop, read_new.
    fold (score_loop service (normalize str_lower query)).
    assert (Hread : forall key,
               Store.response_at
                 r key
                 (h ++ [Store.CountsDict
                          (score_loop service (normalize str_lower query))])
               = getitem service.(responses) key).
    { intros key. unfold Store.response_at.
      rewrite read_old by (eapply read_allocated; eauto).
      now rewrite Hr. }
    destruct (score_loop service (normalize str_lower query)) as [|x m] eqn:E;
      cbn [fst snd].
    + rewrite Hread. split; [reflexivity|]. eexists. reflexivity.
    + split; [|eexists; reflexivity].
      destruct (max (keys (x :: m)) (get (x :: m))) as [best|e];
        [apply Hread | reflexivity].
Qed.

Lemma store_run h self service history :
  Store.holds h self service ->
  Store.holds (Store.run str_lower self history h) self service
  /\ exists garbage, Store.run str_lower self history h = h ++ garbage.
Proof.
  revert h. induction history as [|q qs IH]; intros h Hh.
  - split; [assumption|]. exists []. now rewrite app_nil_r.
  - cbn [Store.run].
    destruct (store_process_query h self service q Hh) as [_ [g Hg]].
    rewrite Hg.
    destruct (IH (h ++ g) (holds_extend _ g _ _ Hh)) as [H1 [g' Hg']].
    split; [assumption|]. exists (g ++ g'). rewrite Hg'.
    now rewrite app_assoc.
Qed.

Lemma store_init (h0 : Store.store) :
  Store.holds (snd (Store.__init__ h0)) (fst (Store.__init__ h0))
              voice_service.
Proof.
  unfold Store.__init__, Store.alloc. cbn [fst snd].
  exists (List.length h0), (List.length (h0 ++ [Store.PatternsDict
                                                  __init__.(query_patterns)])).
  split; [apply read_new|]. split.
  - do 2 rewrite read_old by (rewrite ?length_app; simpl; lia).
    apply read_new.
  - rewrite read_old by (rewrite ?length_app; simpl; lia).
    apply read_new.
Qed.

Lemma store_answer h0 history query :
  Store.answer str_lower h0 history query
  = process_query str_lower voice_service query.
Proof.
  unfold Store.answer.
  assert (Hinit := store_init h0).
  destruct (Store.__init__ h0) as [self h]. cbn [fst snd] in Hinit.
  destruct (store_run h self voice_service history Hinit) as [Hh _].
  apply (store_process_query _ _ _ query Hh).
Qed.

Hypothesis str_lower_ascii :
  forall s, is_ascii s = true -> str_lower s = ascii_lower s.

(** C6. The answer to a query does not depend on the process that gives it
    nor on the calls made before: whatever the store was when the instance
    was built and whatever queries were answered since, [process_query]
    returns the same result, the one determined by the query and the tables
    alone.  A call changes no object that existed before it (it only
    allocates its own [matches] dict), so the instance stays as it was.
    ["soil price"] scores one for ["prices"], one for ["fertilizer"] and
    one for ["soil"], and is always classified as ["prices"], the first of
    them in table order. *)
Theorem process_query_deterministic :
  (forall h0 h0' history history' query,
      Store.answer str_lower h0 history query
      = Store.answer str_lower h0' history' query)
  /\ (forall h0 history query,
         Store.answer str_lower h0 history query
         = process_query str_lower voice_service query)
  /\ (forall h self service query a o,
         Store.holds h self service ->
         Store.read a h = Some o ->
         Store.read a (snd (Store.process_query str_lower self query h))
         = Some o)
  /\ score_loop voice_service (normalize str_lower (u "soil price"))
     = [(u "prices", 1); (u "fertilizer", 1); (u "soil", 1)]
  /\ classify str_lower voice_service (u "soil price") = Ok (u "prices")
  /\ process_query str_lower voice_service (u "soil price")
     = getitem voice_service.(responses) (u "prices").
Proof.
  split; [|split; [|split]].
  - intros h0 h0' history history' query. now rewrite !store_answer.
  - apply store_answer.
  - intros h self service query a o Hh Ha.
    destruct (store_process_query h self service query Hh) as [_ [g ->]].
    rewrite read_old by (eapply read_allocated; eauto). exact Ha.
  - split; [|split]; by_ascii str_lower_ascii.
Qed.

End StoredInstance.

Lemma process_query_deterministic_witness :
  Store.answer ascii_lower [] [] (u "soil price")
  = Store.answer ascii_lower
                 [Store.CountsDict [(u "soil", 7)]; Store.Instance 0%nat 0%nat]
                 [u "hello"; u "clay soil"; u "soil price"]
                 (u "soil price")
  /\ Store.answer ascii_lower [] [u "pest"] (u "soil price")
     = getitem voice_service.(responses) (u "prices").
Proof.
  destruct (process_query_deterministic ascii_lower ascii_lower_on_ascii)
    as (Hsame & Hpure & _ & _ & _ & Hsoil).
  split; [apply Hsame|]. rewrite Hpure. exact Hsoil.
Defined.
